(** * CalDAV client of the calendar sync worker: discovery, enumeration,
      event query and item mapping

    A shallow embedding of [caldav/caldav.go], [caldav/calendar.go] and of the
    item mapper ([newCalendarItem] and the accessors of [calendarItem]).

    Conventions of the embedding.
    - A Go pointer whose nil-ness the code can observe is an [option]; a
      dereference of nil and an index past the end of a slice are run-time
      panics, the [Panic] outcome.
    - A Go result [(v, err)] in which [v] is nil exactly when [err] is not is
      a sum, [inl v] or [inr err].  [CalendarEvents], whose error paths are
      stated in terms of the events returned beside the error, keeps Go's
      pair, the nil slice being the empty list.
    - The HTTP server is an oracle that answers a request from the history of
      the requests made so far; the history is the only state the package
      threads, and it is what the statements about attempted candidates and
      issued queries read.
    - Log lines ([log.ErrorObject]) are not part of the model.

    Beside the client, the development embeds the transport that adds the
    CalDAV headers, the conversion of log parameters and the standard
    logger's adapter of the [log] package, the message queue of the [sqs]
    package, and the worker's choice of a calendar client and its syncing of
    one account ([createCalendarClient], [syncAccount]).  There the
    collaborators outside the repository (the AWS SDK, the secret store, the
    event store, the other calendar clients, the clock) are oracles, and the
    requests made of them are recorded in order. *)

From Stdlib Require Import ZArith List String Ascii Bool Lia.
From Stdlib Require Import DecimalString DecimalNat FinFun.
Import ListNotations.

Local Open Scope Z_scope.
Local Open Scope list_scope.

(* ------------------------------------------------------------------ *)
(** ** Go's [time] package, as far as [IsAllDay] uses it *)

Module time.

(** A [Duration] is a count of nanoseconds. *)
Definition Duration := Z.

Definition Nanosecond : Duration := 1.
Definition Microsecond : Duration := 1000 * Nanosecond.
Definition Millisecond : Duration := 1000 * Microsecond.
Definition Second : Duration := 1000 * Millisecond.

(** An instant, as the absolute number of nanoseconds since the zero time
    (January 1, year 1, 00:00:00 UTC); it is negative before the zero time.
    Location and monotonic reading play no part in [Truncate] and [IsZero]. *)
Record Time := mkTime { sinceZero : Z }.

Definition zero : Time := mkTime 0.

Definition IsZero (t : Time) : bool := sinceZero t =? 0.

(** [t.Truncate(d)]: [t] rounded down to a multiple of [d] since the zero
    time; [t] itself when [d <= 0]. *)
Definition Truncate (t : Time) (d : Duration) : Time :=
  if d <=? 0 then t else mkTime (sinceZero t - sinceZero t mod d).

End time.

(* ------------------------------------------------------------------ *)
(** ** Errors *)

(** The error values the package can hand back: what a library reported
    ([LibraryError]), the [url.EscapeError] of [url.QueryUnescape], and the
    aggregate built by [errors.WF11301]. *)
#[local] Set Warnings "-register-all".
Inductive error : Type :=
| LibraryError (message : string)
| EscapeError (escape : string)
| AggregateError (message : string) (causes : list error).

(** Modelled from the spec: [common.NewAggregateError] belongs to the
    commongo library, which the package only calls.  The aggregate is one
    error value that carries the ordered list of the causes it was given. *)
Definition common_NewAggregateError (message : string) (errs : list error) : error :=
  AggregateError message errs.

(** The cause list of an error: the causes an aggregate carries, in the
    order given, and none for any other error. *)
Definition error_causes (e : error) : list error :=
  match e with
  | AggregateError _ causes => causes
  | _ => []
  end.

Module errors.

Definition wf11301 : string :=
  "WF11301: all attempts failed with the following errors:".

Definition WF11301 (errs : list error) : error :=
  common_NewAggregateError wf11301 errs.

End errors.

(* ------------------------------------------------------------------ *)
(** ** Go's [url.QueryUnescape] *)

Module url.

Definition ishex (c : ascii) : bool :=
  let n := nat_of_ascii c in
  ((48 <=? n) && (n <=? 57) || (97 <=? n) && (n <=? 102)
   || (65 <=? n) && (n <=? 70))%nat.

Definition unhex (c : ascii) : nat :=
  let n := nat_of_ascii c in
  (if (48 <=? n) && (n <=? 57) then n - 48
   else if (97 <=? n) && (n <=? 102) then n - 97 + 10
   else if (65 <=? n) && (n <=? 70) then n - 65 + 10
   else 0)%nat.

(** The text of an [EscapeError]: the offending [%] and at most the two
    bytes that follow it. *)
Definition escapeText (s : string) : string := String.substring 0 3 s.

(** [%XX] becomes the byte [XX], [+] becomes a space, every other byte is
    kept; the leftmost [%] that is not followed by two hex digits is an
    [EscapeError]. *)
Fixpoint QueryUnescape (s : string) : string + error :=
  match s with
  | EmptyString => inl EmptyString
  | String c rest =>
      if Ascii.eqb c "%"%char then
        match rest with
        | String a (String b rest') =>
            if ishex a && ishex b then
              match QueryUnescape rest' with
              | inl t => inl (String (ascii_of_nat (unhex a * 16 + unhex b)) t)
              | inr e => inr e
              end
            else inr (EscapeError (escapeText s))
        | _ => inr (EscapeError (escapeText s))
        end
      else
        match QueryUnescape rest with
        | inl t => inl (String (if Ascii.eqb c "+"%char then " "%char else c) t)
        | inr e => inr e
        end
  end.

End url.

(* ------------------------------------------------------------------ *)
(** ** Run-time outcomes *)

(** What evaluating a Go expression comes to: a value, or a run-time panic
    (nil dereference, index out of range) that unwinds the caller. *)
Inductive Outcome (A : Type) : Type :=
| Ret (a : A)
| Panic (message : string).
Arguments Ret {A} a.
Arguments Panic {A} message.

Definition nilDereference : string :=
  "runtime error: invalid memory address or nil pointer dereference".
Definition indexOutOfRange : string :=
  "runtime error: index out of range [0] with length 0".

Definition obind {A B} (o : Outcome A) (f : A -> Outcome B) : Outcome B :=
  match o with
  | Ret a => f a
  | Panic m => Panic m
  end.

(** [*p] *)
Definition deref {A} (p : option A) : Outcome A :=
  match p with
  | Some a => Ret a
  | None => Panic nilDereference
  end.

(** [s[0]] *)
Definition first {A} (s : list A) : Outcome A :=
  match s with
  | a :: _ => Ret a
  | [] => Panic indexOutOfRange
  end.

(* ------------------------------------------------------------------ *)
(** ** Collaborators outside the repository *)

(** The enumerations of [go/enums], the conversion tables of [go/convert]
    and the query constructor of the CalDAV library are declared outside the
    files modelled here.  They are taken as parameters; [rsvp_Unknown] is
    the one enumeration value the package names. *)
Class External : Type := {
  values_ParticipationStatus : Type;
  values_EventAccessClassification : Type;
  rsvp_MeetingResponseType : Type;
  rsvp_Unknown : rsvp_MeetingResponseType;
  sensitivity_Sensitivity : Type;
  convert_ParticipationStatusToMeetingResponseType :
    values_ParticipationStatus -> rsvp_MeetingResponseType;
  convert_EventAccessClassificationToSensitivity :
    values_EventAccessClassification -> sensitivity_Sensitivity;
  entities_CalendarQuery : Type;
  entities_NewEventRangeQuery :
    time.Time -> time.Time -> entities_CalendarQuery + error
}.

(* ------------------------------------------------------------------ *)
(** ** WebDAV entities, as the package reads them *)

Module props.

(** Field [F] of struct [T] is the projection [T_F]. *)
Record CurrentUserPrincipal := { CurrentUserPrincipal_Href : string }.
Record CalendarHomeSet := { CalendarHomeSet_Href : string }.
Record Comp := { Comp_Name : string }.
Record SupportedCalendarComponentSet :=
  { SupportedCalendarComponentSet_Components : list Comp }.
(** [components.TimeZone] *)
Record TimeZone := { TimeZone_Id : string }.

(** [entities.Prop] *)
Record Prop_ := {
  Prop_DisplayName : string;
  Prop_CalendarTimezone : option TimeZone;
  Prop_SupportedCalendarComponentSet : option SupportedCalendarComponentSet;
  Prop_CurrentUserPrincipal : option CurrentUserPrincipal;
  Prop_CalendarHomeSet : option CalendarHomeSet
}.

Record PropStat := { PropStat_Status : string; PropStat_Prop : option Prop_ }.
Record Response := { Response_Href : string; Response_PropStats : list PropStat }.
Record Multistatus := { Multistatus_Responses : list Response }.

(** The body of a PROPFIND request. *)
Record Propfind := { Propfind_Props : list Prop_ }.

(** A [Prop] literal that sets no field. *)
Definition emptyProp : Prop_ :=
  {| Prop_DisplayName := ""; Prop_CalendarTimezone := None;
     Prop_SupportedCalendarComponentSet := None;
     Prop_CurrentUserPrincipal := None; Prop_CalendarHomeSet := None |}.

End props.

(** [webdav.Depth] *)
Inductive Depth := Depth0 | Depth1.

Declare Scope outcome_scope.
Delimit Scope outcome_scope with outcome.
Notation "x <- c1 ;; c2" := (obind c1 (fun x => c2))
  (at level 61, c1 at next level, right associativity) : outcome_scope.

(* ------------------------------------------------------------------ *)
(** ** iCalendar values and the raw event *)

(** [mail.Address] *)
Record mail_Address := { mail_Name : string; mail_Address_ : string }.

(** A value with an [EncodeICalValue() (string, error)] method
    ([values.Url], [values.Location]); the field is what the method returns. *)
Record Encodable := { EncodeICalValue : string * option error }.

(** An interface value of type [properties.CanEncodeValue]: the nil
    interface, or a dynamic value that is a pointer (nil or not) or a value
    of a kind that has no nil. *)
Inductive CanEncodeValue :=
| nilInterface
| pointerValue (p : option Encodable)
| structValue (v : Encodable).

(** [reflect.ValueOf(value).IsNil()], which panics on a kind that has no
    nil. *)
Definition reflect_IsNil (value : CanEncodeValue) : Outcome bool :=
  match value with
  | pointerValue None => Ret true
  | pointerValue (Some _) => Ret false
  | nilInterface => Panic "reflect: call of reflect.Value.IsNil on zero Value"
  | structValue _ => Panic "reflect: call of reflect.Value.IsNil on struct Value"
  end.

(** [value.EncodeICalValue()] on a value known not to be nil. *)
Definition callEncodeICalValue (value : CanEncodeValue) : Outcome (string * option error) :=
  match value with
  | pointerValue (Some v) | structValue v => Ret (EncodeICalValue v)
  | _ => Panic nilDereference
  end.

(** [values.DateTime] *)
Record values_DateTime := { DateTime_t : time.Time }.

(** [d.NativeTime()] on a [*values.DateTime]: the wrapped time, read through
    the pointer. *)
Definition NativeTime (d : option values_DateTime) : Outcome time.Time :=
  (v <- deref d ;; Ret (DateTime_t v))%outcome.

Section Mapper.

Context {ext : External}.

(** [values.OrganizerContact] and [values.Attendee] *)
Record values_OrganizerContact := { OrganizerContact_Entry : mail_Address }.
Record values_Attendee := {
  Attendee_Entry : mail_Address;
  Attendee_ParticipationStatus : values_ParticipationStatus
}.

(** [components.Event], the fields the mapper reads. *)
Record components_Event := {
  Event_UID : string;
  Event_Summary : string;
  Event_Description : string;
  Event_Url : option Encodable;
  Event_Location : option Encodable;
  Event_DateStart : option values_DateTime;
  Event_DateEnd : option values_DateTime;
  Event_Created : option values_DateTime;
  Event_LastModified : option values_DateTime;
  Event_Organizer : option values_OrganizerContact;
  Event_Attendees : list values_Attendee;
  Event_AccessClassification : values_EventAccessClassification
}.

(* ------------------------------------------------------------------ *)
(** ** The item mapper *)

Record calendarListEntry := {
  cal_path : string;
  cal_emailAddress : string;
  cal_displayName : string;
  cal_timeZone : string
}.

Record emailAddress := { name : string; address : string }.

Definition Name (email : emailAddress) : string := name email.
Definition Address (email : emailAddress) : string := address email.

Definition newEmailAddress (email : mail_Address) : emailAddress :=
  {| name := mail_Name email; address := mail_Address_ email |}.

Record attendee := {
  attendee_emailAddress : emailAddress;
  attendee_responseType : rsvp_MeetingResponseType
}.

Definition attendee_EmailAddress (a : attendee) : emailAddress :=
  attendee_emailAddress a.
Definition attendee_ResponseType (a : attendee) : rsvp_MeetingResponseType :=
  attendee_responseType a.

Definition unsafeToString (value : CanEncodeValue) : Outcome string :=
  match value with
  | nilInterface => Ret ""%string
  | _ =>
      (isNil <- reflect_IsNil value ;;
       if isNil : bool then Ret ""%string
       else
         r <- callEncodeICalValue value ;;
         match r with
         | (_, Some _) => Ret ""%string
         | (s, None) => Ret s
         end)%outcome
  end.

Definition resolveOrganizer (organizer : option values_OrganizerContact)
  : option emailAddress :=
  match organizer with
  | None => None
  | Some o => Some (newEmailAddress (OrganizerContact_Entry o))
  end.

(** The loop of [resolveAttendees]; [attendees] is the slice built so far. *)
Fixpoint resolveAttendees_from (eventAttendees : list values_Attendee)
  (attendees : list attendee) : list attendee :=
  match eventAttendees with
  | [] => attendees
  | a :: rest =>
      let responseType :=
        convert_ParticipationStatusToMeetingResponseType
          (Attendee_ParticipationStatus a) in
      resolveAttendees_from rest
        (attendees ++ [ {| attendee_emailAddress := newEmailAddress (Attendee_Entry a);
                           attendee_responseType := responseType |} ])
  end.

Definition resolveAttendees (eventAttendees : list values_Attendee) : list attendee :=
  resolveAttendees_from eventAttendees [].

Fixpoint findResponseType (emailAddress : string) (attendees : list attendee)
  : rsvp_MeetingResponseType :=
  match attendees with
  | [] => rsvp_Unknown
  | a :: rest =>
      if String.eqb (Address (attendee_EmailAddress a)) emailAddress
      then attendee_ResponseType a
      else findResponseType emailAddress rest
  end.

Record calendarItem := {
  Event : components_Event;
  calendar : calendarListEntry;
  responseType : rsvp_MeetingResponseType;
  organizer : option emailAddress;
  attendees : list attendee;
  sensitivity : sensitivity_Sensitivity
}.

Definition newCalendarItem (event : components_Event)
  (parentCalendar : calendarListEntry) : calendarItem :=
  let attendees := resolveAttendees (Event_Attendees event) in
  {| Event := event;
     calendar := parentCalendar;
     responseType := findResponseType (cal_emailAddress parentCalendar) attendees;
     organizer := resolveOrganizer (Event_Organizer event);
     attendees := attendees;
     sensitivity :=
       convert_EventAccessClassificationToSensitivity
         (Event_AccessClassification event) |}.

Definition UID (item : calendarItem) : string := Event_UID (Event item).
Definition Subject (item : calendarItem) : string := Event_Summary (Event item).
Definition Description (item : calendarItem) : string :=
  Event_Description (Event item).
Definition URL (item : calendarItem) : Outcome string :=
  unsafeToString (pointerValue (Event_Url (Event item))).
Definition Start (item : calendarItem) : Outcome time.Time :=
  NativeTime (Event_DateStart (Event item)).
Definition End_ (item : calendarItem) : Outcome time.Time :=
  NativeTime (Event_DateEnd (Event item)).
Definition TimeZone (item : calendarItem) : string := cal_timeZone (calendar item).
Definition Location (item : calendarItem) : Outcome string :=
  unsafeToString (pointerValue (Event_Location (Event item))).
Definition ResponseType (item : calendarItem) : rsvp_MeetingResponseType :=
  responseType item.
Definition Organizer (item : calendarItem) : option emailAddress := organizer item.
Definition Attendees (item : calendarItem) : list attendee := attendees item.

(** [a && b] evaluates [b] only when [a] is true. *)
Definition IsAllDay (item : calendarItem) : Outcome bool :=
  (s <- Start item ;;
   if time.IsZero (time.Truncate s time.Millisecond)
   then e <- End_ item ;; Ret (time.IsZero (time.Truncate e time.Millisecond))
   else Ret false)%outcome.

Definition Sensitivity (item : calendarItem) : sensitivity_Sensitivity :=
  sensitivity item.
Definition CreatedAt (item : calendarItem) : Outcome time.Time :=
  NativeTime (Event_Created (Event item)).
Definition LastModifiedAt (item : calendarItem) : Outcome time.Time :=
  match Event_LastModified (Event item) with
  | None => CreatedAt item
  | Some _ => NativeTime (Event_LastModified (Event item))
  end.
Definition CalendarID (item : calendarItem) : string := cal_path (calendar item).
Definition CalendarDisplayName (item : calendarItem) : string :=
  cal_displayName (calendar item).
Definition CalendarItemID (item : calendarItem) : string := Event_UID (Event item).

End Mapper.

(* ------------------------------------------------------------------ *)
(** ** Requests, the server, and the package's functions that talk to it *)

Section Client.

Context {ext : External}.

(** One request as it leaves the process: which server it went to, the
    path, and what it asked. *)
Inductive Call :=
| PropfindCall (server path : string) (depth : Depth) (body : props.Propfind)
| QueryEventsCall (server path : string) (query : entities_CalendarQuery).

(** [*http.Client] with its authenticated transport, seen as the server
    behind it: the answer to a request, given the requests made before. *)
Record http_Client := {
  propfindReply :
    list Call -> string -> string -> Depth -> props.Propfind ->
    props.Multistatus + error;
  queryEventsReply :
    list Call -> string -> string -> entities_CalendarQuery ->
    list components_Event + error
}.

(** [*caldav.Client]: [caldav.NewClient(server, httpClient)], the server
    being [caldav.NewServer(baseUrl)]. *)
Record caldav_Client := { Client_server : string; Client_http : http_Client }.

(** A computation that issues requests: it extends the history of calls and
    ends in a value or a panic. *)
Definition Go (A : Type) : Type := list Call -> Outcome A * list Call.

Definition ret {A} (a : A) : Go A := fun calls => (Ret a, calls).

Definition bind {A B} (m : Go A) (f : A -> Go B) : Go B :=
  fun calls =>
    match m calls with
    | (Ret a, calls') => f a calls'
    | (Panic msg, calls') => (Panic msg, calls')
    end.

Definition lift {A} (o : Outcome A) : Go A := fun calls => (o, calls).

(** [client.WebDAV().Propfind(path, depth, body)] *)
Definition Propfind (client : caldav_Client) (path : string) (depth : Depth)
  (body : props.Propfind) : Go (props.Multistatus + error) :=
  fun calls =>
    (Ret (propfindReply (Client_http client) calls (Client_server client) path depth body),
     calls ++ [PropfindCall (Client_server client) path depth body]).

(** [client.QueryEvents(path, query)] *)
Definition QueryEvents (client : caldav_Client) (path : string)
  (query : entities_CalendarQuery) : Go (list components_Event + error) :=
  fun calls =>
    (Ret (queryEventsReply (Client_http client) calls (Client_server client) path query),
     calls ++ [QueryEventsCall (Client_server client) path query]).

End Client.

Declare Scope go_scope.
Delimit Scope go_scope with go.
Notation "x <- c1 ;; c2" := (bind c1 (fun x => c2))
  (at level 61, c1 at next level, right associativity) : go_scope.

Section Discovery.

Context {ext : External}.

Definition paths : list string :=
  [""; "/caldav"; "/caldav/st"; "/.well-known/caldav"]%string.

Definition findCurrentUserPrincipalRequestBody : props.Propfind :=
  {| props.Propfind_Props :=
       [ {| props.Prop_DisplayName := "";
            props.Prop_CalendarTimezone := None;
            props.Prop_SupportedCalendarComponentSet := None;
            props.Prop_CurrentUserPrincipal :=
              Some {| props.CurrentUserPrincipal_Href := "" |};
            props.Prop_CalendarHomeSet := None |} ] |}.

Definition findCalendarHomeSetRequestBody : props.Propfind :=
  {| props.Propfind_Props :=
       [ {| props.Prop_DisplayName := "";
            props.Prop_CalendarTimezone := None;
            props.Prop_SupportedCalendarComponentSet := None;
            props.Prop_CurrentUserPrincipal := None;
            props.Prop_CalendarHomeSet :=
              Some {| props.CalendarHomeSet_Href := "" |} |} ] |}.

(** [multistatus.Responses[0].PropStats[0].Prop] *)
Definition firstProp (multistatus : props.Multistatus) : Outcome props.Prop_ :=
  (response <- first (props.Multistatus_Responses multistatus) ;;
   propstat <- first (props.Response_PropStats response) ;;
   deref (props.PropStat_Prop propstat))%outcome.

Definition findCalendarHomeSet (client : caldav_Client) (path : string)
  : Go (option props.CalendarHomeSet + error) :=
  (r <- Propfind client path Depth0 findCurrentUserPrincipalRequestBody ;;
   match r with
   | inr err => ret (inr err)
   | inl multistatus =>
       prop <- lift (firstProp multistatus) ;;
       principal <- lift (deref (props.Prop_CurrentUserPrincipal prop)) ;;
       match url.QueryUnescape (props.CurrentUserPrincipal_Href principal) with
       | inr err => ret (inr err)
       | inl path =>
           r <- Propfind client path Depth0 findCalendarHomeSetRequestBody ;;
           match r with
           | inr err => ret (inr err)
           | inl multistatus =>
               prop <- lift (firstProp multistatus) ;;
               ret (inl (props.Prop_CalendarHomeSet prop))
           end
       end
   end)%go.

(** [caldav.NewClient(candidate, client)] for the server
    [caldav.NewServer("https://" + host)]. *)
Definition candidateClient (host : string) (httpClient : http_Client) : caldav_Client :=
  {| Client_server := String.append "https://" host; Client_http := httpClient |}.

(** The loop of [discoverServer] over the candidates left; [errs] holds the
    errors of the candidates tried so far.  The source discards the error of
    [caldav.NewServer]; the client of a candidate is taken to be built, and
    what the server reference is worth shows in the answers to its requests. *)
Fixpoint discoverServer_from (host : string) (client : http_Client)
  (candidates : list string) (errs : list error)
  : Go (caldav_Client * option props.CalendarHomeSet + error) :=
  match candidates with
  | [] => ret (inr (errors.WF11301 errs))
  | path :: rest =>
      let client' := candidateClient host client in
      (r <- findCalendarHomeSet client' path ;;
       match r with
       | inr err => discoverServer_from host client rest (errs ++ [err])
       | inl calendarHomeSet => ret (inl (client', calendarHomeSet))
       end)%go
  end.

Definition discoverServer (host : string) (client : http_Client)
  : Go (caldav_Client * option props.CalendarHomeSet + error) :=
  discoverServer_from host client paths [].

Record client := {
  client_path : string;
  client_emailAddress : string;
  client_calendarClient : caldav_Client
}.

(** [NewClient]; the password only configures the transport, which the
    server oracle [httpClient] stands for. *)
Definition NewClient (host username password : string) (httpClient : http_Client)
  : Go (client + error) :=
  (r <- discoverServer host httpClient ;;
   match r with
   | inr err => ret (inr err)
   | inl (calendarClient, calendarHomeSet) =>
       homeSet <- lift (deref calendarHomeSet) ;;
       match url.QueryUnescape (props.CalendarHomeSet_Href homeSet) with
       | inr err => ret (inr err)
       | inl path =>
           ret (inl {| client_path := path;
                       client_emailAddress := username;
                       client_calendarClient := calendarClient |})
       end
   end)%go.

(** The candidates a history of calls shows as attempted: each attempt
    opens with the property query for the current user principal at the
    candidate's path. *)
Definition asksCurrentUserPrincipal (body : props.Propfind) : bool :=
  match props.Propfind_Props body with
  | [p] => match props.Prop_CurrentUserPrincipal p with Some _ => true | None => false end
  | _ => false
  end.

Fixpoint attempted (calls : list Call) : list string :=
  match calls with
  | [] => []
  | PropfindCall _ path Depth0 body :: rest =>
      if asksCurrentUserPrincipal body then path :: attempted rest else attempted rest
  | _ :: rest => attempted rest
  end.

(** [AllFail host httpClient candidates calls errs calls']: tried one after
    the other from the history [calls], every candidate of [candidates] fails,
    the i-th with the i-th error of [errs], and the history is then [calls']. *)
Inductive AllFail (host : string) (httpClient : http_Client)
  : list string -> list Call -> list error -> list Call -> Prop :=
| AllFail_nil calls : AllFail host httpClient [] calls [] calls
| AllFail_cons path rest calls err calls1 errs calls2 :
    findCalendarHomeSet (candidateClient host httpClient) path calls
      = (Ret (inr err), calls1) ->
    AllFail host httpClient rest calls1 errs calls2 ->
    AllFail host httpClient (path :: rest) calls (err :: errs) calls2.

End Discovery.

(* ------------------------------------------------------------------ *)
(** ** Enumeration and event query ([calendar.go]) *)

Section Calendars.

Context {ext : External}.

Definition calendarType : string := "VEVENT".
Definition httpOK : string := "HTTP/1.1 200 OK".

Definition findCalendarsRequestBody : props.Propfind :=
  {| props.Propfind_Props :=
       [ {| props.Prop_DisplayName := " ";
            props.Prop_CalendarTimezone := Some {| props.TimeZone_Id := "" |};
            props.Prop_SupportedCalendarComponentSet :=
              Some {| props.SupportedCalendarComponentSet_Components := [] |};
            props.Prop_CurrentUserPrincipal := None;
            props.Prop_CalendarHomeSet := None |} ] |}.

Definition extractTimeZoneID (timeZone : option props.TimeZone) : string :=
  match timeZone with
  | None => ""%string
  | Some tz => props.TimeZone_Id tz
  end.

(** [response.PropStats[0].Prop], read again when the entry is built. *)
Definition responseProp (response : props.Response) : Outcome props.Prop_ :=
  (propstat <- first (props.Response_PropStats response) ;;
   deref (props.PropStat_Prop propstat))%outcome.

(** The inner loop of [findCalendars] over the components left of one
    response: at the first component named [calendarType] the entry is
    appended (or the unescape error returned) and the loop is left. *)
Fixpoint findCalendars_components (c : client) (response : props.Response)
  (components : list props.Comp) (calendars : list calendarListEntry)
  : Outcome (list calendarListEntry + error) :=
  match components with
  | [] => Ret (inl calendars)
  | component :: rest =>
      if String.eqb (props.Comp_Name component) calendarType then
        match url.QueryUnescape (props.Response_Href response) with
        | inr err => Ret (inr err)
        | inl path =>
            (prop <- responseProp response ;;
             Ret (inl (calendars ++
               [ {| cal_path := path;
                    cal_emailAddress := client_emailAddress c;
                    cal_displayName := props.Prop_DisplayName prop;
                    cal_timeZone := extractTimeZoneID (props.Prop_CalendarTimezone prop) |} ])))%outcome
        end
      else findCalendars_components c response rest calendars
  end.

(** The outer loop of [findCalendars] over the responses left. *)
Fixpoint findCalendars_from (c : client) (responses : list props.Response)
  (calendars : list calendarListEntry)
  : Outcome (list calendarListEntry + error) :=
  match responses with
  | [] => Ret (inl calendars)
  | response :: rest =>
      (propertyStatus <- first (props.Response_PropStats response) ;;
       if String.eqb (props.PropStat_Status propertyStatus) httpOK then
         prop <- deref (props.PropStat_Prop propertyStatus) ;;
         match props.Prop_SupportedCalendarComponentSet prop with
         | None => findCalendars_from c rest calendars
         | Some set =>
             r <- findCalendars_components c response
                    (props.SupportedCalendarComponentSet_Components set) calendars ;;
             match r with
             | inr err => Ret (inr err)
             | inl calendars' => findCalendars_from c rest calendars'
             end
         end
       else findCalendars_from c rest calendars)%outcome
  end.

Definition findCalendars (c : client) : Go (list calendarListEntry + error) :=
  (r <- Propfind (client_calendarClient c) (client_path c) Depth1 findCalendarsRequestBody ;;
   match r with
   | inr err => ret (inr err)
   | inl multistatus =>
       lift (findCalendars_from c (props.Multistatus_Responses multistatus) [])
   end)%go.

(** The inner loop of [CalendarEvents]: one calendar's events, appended in
    the order received. *)
Fixpoint appendCalendarItems (events : list components_Event)
  (cal : calendarListEntry) (calendarItems : list calendarItem) : list calendarItem :=
  match events with
  | [] => calendarItems
  | event :: rest =>
      appendCalendarItems rest cal (calendarItems ++ [newCalendarItem event cal])
  end.

(** The outer loop of [CalendarEvents] over the calendars left.  The result
    is Go's pair: the events and the error. *)
Fixpoint CalendarEvents_from (c : client) (query : entities_CalendarQuery)
  (calendars : list calendarListEntry) (calendarItems : list calendarItem)
  : Go (list calendarItem * option error) :=
  match calendars with
  | [] => ret (calendarItems, None)
  | cal :: rest =>
      (r <- QueryEvents (client_calendarClient c) (cal_path cal) query ;;
       match r with
       | inr err => ret ([], Some err)
       | inl events =>
           CalendarEvents_from c query rest (appendCalendarItems events cal calendarItems)
       end)%go
  end.

Definition CalendarEvents (c : client) (startUTC endUTC : time.Time)
  : Go (list calendarItem * option error) :=
  match entities_NewEventRangeQuery startUTC endUTC with
  | inr err => ret ([], Some err)
  | inl query =>
      (r <- findCalendars c ;;
       match r with
       | inr err => ret ([], Some err)
       | inl calendars => CalendarEvents_from c query calendars []
       end)%go
  end.

(** The paths of the event queries a history of calls shows. *)
Fixpoint queried (calls : list Call) : list string :=
  match calls with
  | [] => []
  | QueryEventsCall _ path _ :: rest => path :: queried rest
  | _ :: rest => queried rest
  end.

(** What the claims about enumeration speak of: the first property status of
    the response is a success and its supported component set names the
    event component type. *)
Definition supportsEvents (response : props.Response) : bool :=
  match props.Response_PropStats response with
  | [] => false
  | propertyStatus :: _ =>
      String.eqb (props.PropStat_Status propertyStatus) httpOK &&
      match props.PropStat_Prop propertyStatus with
      | None => false
      | Some prop =>
          match props.Prop_SupportedCalendarComponentSet prop with
          | None => false
          | Some set =>
              existsb (fun component => String.eqb (props.Comp_Name component) calendarType)
                (props.SupportedCalendarComponentSet_Components set)
          end
      end
  end.

(** The response can be read without a panic: it has a first property
    status, and one that reports success carries its properties. *)
Definition readable (response : props.Response) : bool :=
  match props.Response_PropStats response with
  | [] => false
  | propertyStatus :: _ =>
      if String.eqb (props.PropStat_Status propertyStatus) httpOK
      then match props.PropStat_Prop propertyStatus with Some _ => true | None => false end
      else true
  end.

Definition unescapable (response : props.Response) : bool :=
  match url.QueryUnescape (props.Response_Href response) with
  | inl _ => true
  | inr _ => false
  end.

(** The entry [findCalendars] builds for a selected response. *)
Definition entryOf (c : client) (response : props.Response) : calendarListEntry :=
  let prop :=
    match responseProp response with
    | Ret prop => prop
    | Panic _ => props.emptyProp
    end in
  {| cal_path :=
       match url.QueryUnescape (props.Response_Href response) with
       | inl path => path
       | inr _ => ""%string
       end;
     cal_emailAddress := client_emailAddress c;
     cal_displayName := props.Prop_DisplayName prop;
     cal_timeZone := extractTimeZoneID (props.Prop_CalendarTimezone prop) |}.

(** [AllAnswer c query calendars calls answers calls']: queried one after the
    other from the history [calls], every calendar of [calendars] answers, the
    i-th with the i-th list of events of [answers], and the history is then
    [calls']. *)
Inductive AllAnswer (c : client) (query : entities_CalendarQuery)
  : list calendarListEntry -> list Call -> list (list components_Event) -> list Call -> Prop :=
| AllAnswer_nil calls : AllAnswer c query [] calls [] calls
| AllAnswer_cons cal rest calls events calls1 answers calls2 :
    QueryEvents (client_calendarClient c) (cal_path cal) query calls
      = (Ret (inl events), calls1) ->
    AllAnswer c query rest calls1 answers calls2 ->
    AllAnswer c query (cal :: rest) calls (events :: answers) calls2.

(** The items of the calendars' events, calendar by calendar and within a
    calendar in the order of its answer. *)
Definition itemsOf (calendars : list calendarListEntry)
  (answers : list (list components_Event)) : list calendarItem :=
  flat_map (fun '(cal, events) => map (fun event => newCalendarItem event cal) events)
    (combine calendars answers).

End Calendars.

(* ------------------------------------------------------------------ *)
(** ** Sample collaborators and data *)

Inductive sampleStatus := NeedsAction | Accepted | Declined | Tentative.
Inductive sampleResponse := Unknown | Accept | Decline | TentativelyAccept.
Inductive sampleClass := Public | Private | Confidential.

Definition sampleExternal : External := {|
  values_ParticipationStatus := sampleStatus;
  values_EventAccessClassification := sampleClass;
  rsvp_MeetingResponseType := sampleResponse;
  rsvp_Unknown := Unknown;
  sensitivity_Sensitivity := sampleClass;
  convert_ParticipationStatusToMeetingResponseType := fun s =>
    match s with
    | NeedsAction => Unknown
    | Accepted => Accept
    | Declined => Decline
    | Tentative => TentativelyAccept
    end;
  convert_EventAccessClassificationToSensitivity := fun c => c;
  entities_CalendarQuery := time.Time * time.Time;
  entities_NewEventRangeQuery := fun s e => inl (s, e)
|}.

Definition sampleCalendar : @calendarListEntry :=
  {| cal_path := "/cal/ann/work/"; cal_emailAddress := "ann@example.org";
     cal_displayName := "Work"; cal_timeZone := "Europe/Paris" |}.

Definition dateTime (ns : Z) : option values_DateTime :=
  Some {| DateTime_t := time.mkTime ns |}.

(** An event that starts and ends [ns] nanoseconds after the zero time. *)
Definition eventAt (ns : Z) (organizer : option (@values_OrganizerContact))
  (eventAttendees : list (@values_Attendee sampleExternal))
  : @components_Event sampleExternal :=
  @Build_components_Event sampleExternal "uid-1" "Review" "" None None
    (dateTime ns) (dateTime ns) (dateTime 0) None organizer eventAttendees Public.

Definition contact (n a : string) : mail_Address :=
  {| mail_Name := n; mail_Address_ := a |}.

Definition invitee (n a : string) (s : sampleStatus) : @values_Attendee sampleExternal :=
  @Build_values_Attendee sampleExternal (contact n a) s.

(** A mapped attendee. *)
Definition guest (n a : string) (r : sampleResponse) : @attendee sampleExternal :=
  @Build_attendee sampleExternal {| name := n; address := a |} r.

(** An event with the given url and location values and no organizer,
    attendee or date. *)
Definition eventWith (u l : option Encodable) : @components_Event sampleExternal :=
  @Build_components_Event sampleExternal "uid-2" "Lunch" "" u l
    None None None None None [] Private.

(** An event as a server may send it: a start time [ns] nanoseconds after
    the zero time, and no end time, creation time or last-modified time,
    all three of which the calendar format leaves optional. *)
Definition openEndedEvent (ns : Z) : @components_Event sampleExternal :=
  @Build_components_Event sampleExternal "uid-3" "Call" "" None None
    (dateTime ns) None None None None [] Public.

(** A value whose encoding fails, and one whose encoding succeeds. *)
Definition undecodable : Encodable :=
  {| EncodeICalValue := ("ignored"%string, Some (LibraryError "cannot encode")) |}.
Definition encoded (s : string) : Encodable := {| EncodeICalValue := (s, None) |}.

(** A multistatus of one response with one successful property status. *)
Definition multistatusOf (href : string) (prop : option props.Prop_) : props.Multistatus :=
  {| props.Multistatus_Responses :=
       [ {| props.Response_Href := href;
            props.Response_PropStats :=
              [ {| props.PropStat_Status := "HTTP/1.1 200 OK";
                   props.PropStat_Prop := prop |} ] |} ] |}.

Definition principalProp (href : string) : props.Prop_ :=
  {| props.Prop_DisplayName := ""; props.Prop_CalendarTimezone := None;
     props.Prop_SupportedCalendarComponentSet := None;
     props.Prop_CurrentUserPrincipal := Some {| props.CurrentUserPrincipal_Href := href |};
     props.Prop_CalendarHomeSet := None |}.

Definition homeSetProp (href : string) : props.Prop_ :=
  {| props.Prop_DisplayName := ""; props.Prop_CalendarTimezone := None;
     props.Prop_SupportedCalendarComponentSet := None;
     props.Prop_CurrentUserPrincipal := None;
     props.Prop_CalendarHomeSet := Some {| props.CalendarHomeSet_Href := href |} |}.

(** A collection that declares the given component types. *)
Definition collection (href status displayName : string) (components : list string)
  : props.Response :=
  {| props.Response_Href := href;
     props.Response_PropStats :=
       [ {| props.PropStat_Status := status;
            props.PropStat_Prop :=
              Some {| props.Prop_DisplayName := displayName;
                      props.Prop_CalendarTimezone := None;
                      props.Prop_SupportedCalendarComponentSet :=
                        Some {| props.SupportedCalendarComponentSet_Components :=
                                  map (fun n => {| props.Comp_Name := n |}) components |};
                      props.Prop_CurrentUserPrincipal := None;
                      props.Prop_CalendarHomeSet := None |} |} ] |}.

(** A server on which every request fails; the error names the path asked. *)
Definition failingServer : @http_Client sampleExternal :=
  {| propfindReply := fun _ _ path _ _ => inr (LibraryError path);
     queryEventsReply := fun _ _ path _ => inr (LibraryError path) |}.

(** The listing under the calendar home of [ann@example.org]. *)
Definition sampleListing : list props.Response :=
  [ collection "/calendars/ann%40example.org/work/" "HTTP/1.1 200 OK" "Work"
      ["VEVENT"; "VTODO"];
    collection "/calendars/ann%40example.org/tasks/" "HTTP/1.1 200 OK" "Tasks"
      ["VTODO"; "VJOURNAL"];
    collection "/calendars/ann%40example.org/%zz/" "HTTP/1.1 404 Not Found" "Gone"
      ["VEVENT"];
    collection "/calendars/ann%40example.org/home/" "HTTP/1.1 200 OK" "Home"
      ["VEVENT"] ]%string.

Definition workEvents : list (@components_Event sampleExternal) :=
  [ eventAt 63000000000000000000 None [invitee "Ann" "ann@example.org" Accepted];
    eventAt 62000000000000000000 None [] ].
Definition homeEvents : list (@components_Event sampleExternal) :=
  [ eventAt 62500000000000000000 None [invitee "Ann" "ann@example.org" Tentative] ].

(** The server of [cal.example.org]: discovery fails on the first two
    candidates and succeeds on [/caldav/st]; the calendar home lists
    [sampleListing]; the calendar [work] answers event queries with
    [workEvents], and [home] with [homeEvents] when [homeAnswers] and with an
    error otherwise. *)
Definition exampleServer (homeAnswers : bool) : @http_Client sampleExternal :=
  {| propfindReply := fun _ _ path depth body =>
       match depth with
       | Depth1 => inl {| props.Multistatus_Responses := sampleListing |}
       | Depth0 =>
           if asksCurrentUserPrincipal body then
             if String.eqb path "/caldav/st"
             then inl (multistatusOf path (Some (principalProp "/principals/ann%40example.org/")))
             else inr (LibraryError path)
           else inl (multistatusOf path (Some (homeSetProp "/calendars/ann%40example.org/")))
       end;
     queryEventsReply := fun _ _ path _ =>
       if String.eqb path "/calendars/ann@example.org/work/" then inl workEvents
       else if homeAnswers then inl homeEvents
       else inr (LibraryError "503 Service Unavailable") |}.

(** A server whose answer to the first property query carries no
    current-user-principal, and one whose answer to the second carries no
    calendar-home-set. *)
Definition serverWithoutPrincipal : @http_Client sampleExternal :=
  {| propfindReply := fun _ _ path _ _ => inl (multistatusOf path (Some props.emptyProp));
     queryEventsReply := fun _ _ _ _ => inl [] |}.

Definition serverWithoutHomeSet : @http_Client sampleExternal :=
  {| propfindReply := fun _ _ path _ body =>
       if asksCurrentUserPrincipal body
       then inl (multistatusOf path (Some (principalProp "/principals/ann/")))
       else inl (multistatusOf path (Some props.emptyProp));
     queryEventsReply := fun _ _ _ _ => inl [] |}.

(** A server whose principal reference has a malformed escape. *)
Definition serverWithBadEscape : @http_Client sampleExternal :=
  {| propfindReply := fun _ _ path _ _ =>
       inl (multistatusOf path (Some (principalProp "/principals/%zz/")));
     queryEventsReply := fun _ _ _ _ => inl [] |}.

Definition exampleClient (homeAnswers : bool) : @client sampleExternal :=
  {| client_path := "/calendars/ann@example.org/";
     client_emailAddress := "ann@example.org";
     client_calendarClient := candidateClient "cal.example.org" (exampleServer homeAnswers) |}.

(** The two entries of [sampleListing] that are calendars of events. *)
Definition workCalendar : @calendarListEntry :=
  {| cal_path := "/calendars/ann@example.org/work/"; cal_emailAddress := "ann@example.org";
     cal_displayName := "Work"; cal_timeZone := "" |}.
Definition homeCalendar : @calendarListEntry :=
  {| cal_path := "/calendars/ann@example.org/home/"; cal_emailAddress := "ann@example.org";
     cal_displayName := "Home"; cal_timeZone := "" |}.

(* ------------------------------------------------------------------ *)
(** ** Further servers and listings *)

(** A zero-depth property query addressed to the given server. *)
Definition isDepth0PropfindTo {ext : External} (server : string) (call : Call) : bool :=
  match call with
  | PropfindCall s _ Depth0 _ => String.eqb s server
  | _ => false
  end.

(** A server whose calendar-home reference has a malformed escape. *)
Definition serverWithBadHomeSet : @http_Client sampleExternal :=
  {| propfindReply := fun _ _ path _ body =>
       if asksCurrentUserPrincipal body
       then inl (multistatusOf path (Some (principalProp "/principals/ann/")))
       else inl (multistatusOf path (Some (homeSetProp "/calendars/%zz/")));
     queryEventsReply := fun _ _ _ _ => inl [] |}.

(** A listing whose second calendar of events has a malformed reference. *)
Definition brokenListing : list props.Response :=
  [ collection "/calendars/ann%40example.org/work/" "HTTP/1.1 200 OK" "Work" ["VEVENT"];
    collection "/calendars/ann%40example.org/%zz/" "HTTP/1.1 200 OK" "Odd" ["VEVENT"];
    collection "/calendars/ann%40example.org/home/" "HTTP/1.1 200 OK" "Home" ["VEVENT"] ]%string.

(** A server that answers every property query with the given listing and
    every event query with no event. *)
Definition listingServer (listing : list props.Response) : @http_Client sampleExternal :=
  {| propfindReply := fun _ _ _ _ _ => inl {| props.Multistatus_Responses := listing |};
     queryEventsReply := fun _ _ _ _ => inl [] |}.

Definition listingClient (listing : list props.Response) : @client sampleExternal :=
  {| client_path := "/calendars/ann@example.org/";
     client_emailAddress := "ann@example.org";
     client_calendarClient := candidateClient "cal.example.org" (listingServer listing) |}.

(** A listing whose only response carries no property status, and a server
    on which discovery succeeds and the listing is that one. *)
Definition unreadableListing : list props.Response :=
  [ {| props.Response_Href := "/calendars/ann/odd/"; props.Response_PropStats := [] |} ].


(** Collaborators whose query constructor refuses a window that ends before
    it starts. *)
Definition checkingExternal : External := {|
  values_ParticipationStatus := sampleStatus;
  values_EventAccessClassification := sampleClass;
  rsvp_MeetingResponseType := sampleResponse;
  rsvp_Unknown := Unknown;
  sensitivity_Sensitivity := sampleClass;
  convert_ParticipationStatusToMeetingResponseType := fun _ => Unknown;
  convert_EventAccessClassificationToSensitivity := fun c => c;
  entities_CalendarQuery := time.Time * time.Time;
  entities_NewEventRangeQuery := fun s e =>
    if time.sinceZero e <? time.sinceZero s
    then inr (LibraryError "end before start")
    else inl (s, e)
|}.

Definition silentServer : @http_Client checkingExternal :=
  {| propfindReply := fun _ _ path _ _ => inr (LibraryError path);
     queryEventsReply := fun _ _ path _ => inr (LibraryError path) |}.

Definition silentClient : @client checkingExternal :=
  {| client_path := "/calendars/ann@example.org/";
     client_emailAddress := "ann@example.org";
     client_calendarClient := candidateClient "cal.example.org" silentServer |}.

(** A listing with no calendar of events. *)
Definition tasksListing : list props.Response :=
  [ collection "/calendars/ann%40example.org/tasks/" "HTTP/1.1 200 OK" "Tasks"
      ["VTODO"; "VJOURNAL"] ]%string.

(* ------------------------------------------------------------------ *)
(** ** The transport that adds headers ([caldav.go]) *)

Module http.

(** [http.Header]: the values under each key, in the order added.  The keys
    the package uses, [Depth] and [Prefer], are in canonical form, so
    [Header.Add] stores under the key as written. *)
Definition Header := string -> list string.

Definition Add (h : Header) (key value : string) : Header :=
  fun k => if String.eqb k key then h k ++ [value] else h k.

(** [http.Request]; its header is a map, which may be nil. *)
Record Request := {
  Method : string;
  URL : string;
  Header_ : option Header;
  Body : string
}.

End http.

Definition reportMethod : string := "REPORT".
Definition depth : string := "Depth".
Definition prefer : string := "Prefer".
Definition returnMinimal : string := "return-minimal".

Definition nilMapAssignment : string := "assignment to entry in nil map".

Section Transport.

(** What the inner transport returns: a response and an error. *)
Context {Result : Type}.

Record customHeadersRoundTripper := {
  innerRoundTripper : option (http.Request -> Result);
  transport_depth : string;
  transport_prefer : string
}.

(** [request.Header.Add(key, value)]: the request is changed in place. *)
Definition addHeader (request : http.Request) (key value : string)
  : Outcome http.Request :=
  match http.Header_ request with
  | None => Panic nilMapAssignment
  | Some header =>
      Ret {| http.Method := http.Method request;
             http.URL := http.URL request;
             http.Header_ := Some (http.Add header key value);
             http.Body := http.Body request |}
  end.

(** [RoundTrip]: what the inner transport returns, and the request as the
    call leaves it. *)
Definition RoundTrip (transport : option customHeadersRoundTripper)
  (request : option http.Request) : Outcome (Result * http.Request) :=
  (request <- deref request ;;
   request <- (if String.eqb (http.Method request) reportMethod
               then t <- deref transport ;;
                    addHeader request depth (transport_depth t)
               else Ret request) ;;
   t <- deref transport ;;
   request <- addHeader request prefer (transport_prefer t) ;;
   inner <- deref (innerRoundTripper t) ;;
   Ret (inner request, request))%outcome.

(** The package's [transport] over a given inner transport. *)
Definition transport (inner : http.Request -> Result) : customHeadersRoundTripper :=
  {| innerRoundTripper := Some inner;
     transport_depth := "1";
     transport_prefer := returnMinimal |}.

End Transport.

(** A request with the given method and one header already set. *)
Definition sampleRequest (method : string) : http.Request :=
  {| http.Method := method;
     http.URL := "https://cal.example.org/calendars/ann/work/";
     http.Header_ := Some (fun key => if String.eqb key "Prefer" then ["respond-async"%string] else []);
     http.Body := "" |}.

(* ------------------------------------------------------------------ *)
(** ** The log package *)

Module log.

(** A Go value of type [interface{}], by its dynamic type.  [time.Duration]
    and [time.Time] have a [String] method; an error or a value of another
    type may have one, and [stringer] is then what it returns. *)
Inductive value :=
| nilValue
| boolValue (b : bool)
| intValue (n : Z)
| int64Value (n : Z)
| float64Value (bits : Z)
| stringValue (s : string)
| durationValue (d : time.Duration)
| timeValue (t : time.Time)
| errorValue (message : string) (stringer : option string)
| otherValue (id : nat) (stringer : option string).

(** The dynamic type satisfies [fmt.Stringer]. *)
Definition isStringer (v : value) : bool :=
  match v with
  | durationValue _ | timeValue _ => true
  | errorValue _ (Some _) | otherValue _ (Some _) => true
  | _ => false
  end.

(** [zap.Field], by the constructor that built it. *)
Inductive Field :=
| zap_Bool (key : string) (b : bool)
| zap_Int (key : string) (n : Z)
| zap_Int64 (key : string) (n : Z)
| zap_Float64 (key : string) (bits : Z)
| zap_String (key : string) (s : string)
| zap_Stringer (key : string) (v : value)
| zap_Duration (key : string) (d : time.Duration)
| zap_Time (key : string) (t : time.Time)
| zap_Object (key : string) (v : value).

Definition fieldKey (f : Field) : string :=
  match f with
  | zap_Bool key _ | zap_Int key _ | zap_Int64 key _ | zap_Float64 key _
  | zap_String key _ | zap_Stringer key _ | zap_Duration key _ | zap_Time key _
  | zap_Object key _ => key
  end.

(** The type switch of [convertLogParameters]: the first case that the
    dynamic type of [value] matches, in the order written. *)
Definition convertLogParameter (key : string) (v : value) : Field :=
  match v with
  | boolValue b => zap_Bool key b
  | intValue n => zap_Int key n
  | int64Value n => zap_Int64 key n
  | float64Value bits => zap_Float64 key bits
  | stringValue s => zap_String key s
  | _ =>
      if isStringer v then zap_Stringer key v
      else
        match v with
        | durationValue d => zap_Duration key d
        | timeValue t => zap_Time key t
        | errorValue message _ => zap_String key message
        | _ => zap_Object key v
        end
  end.

Definition notAString : string :=
  "interface conversion: interface {} is not string".
Definition indexPastEnd : string := "runtime error: index out of range".
Definition sliceBoundsOutOfRange : string :=
  "runtime error: slice bounds out of range".

(** The loop of [convertLogParameters] over the arguments from index [i] on,
    two at a time; [fields] holds the fields built so far. *)
Fixpoint convertLogParameters_from (args : list value) (fields : list Field)
  : Outcome (list Field) :=
  match args with
  | [] => Ret fields
  | stringValue key :: rest =>
      match rest with
      | [] => Panic indexPastEnd
      | v :: rest' => convertLogParameters_from rest' (fields ++ [convertLogParameter key v])
      end
  | _ :: _ => Panic notAString
  end.

Definition convertLogParameters (args : list value) : Outcome (list Field) :=
  convertLogParameters_from args [].

(** What the standard logger's adapter hands to [logger.Error]. *)
Definition prefixLength : nat := String.length "2017/07/07 07:07:07 ".

(** [Write(p)]: the message handed to [logger.Error], and the result. *)
Definition Write (p : string) : Outcome (string * (nat * option error)) :=
  if (String.length p <? prefixLength)%nat then Panic sliceBoundsOutOfRange
  else Ret (String.substring prefixLength (String.length p - prefixLength) p,
            (String.length p, None)).

(** The arguments [key1, value1, key2, value2, ...]. *)
Definition keyValues (pairs : list (string * value)) : list value :=
  flat_map (fun '(key, v) => [stringValue key; v]) pairs.

End log.

(* ------------------------------------------------------------------ *)
(** ** The message queue ([sqs]) *)

(** [strconv.Itoa] on an index. *)
Definition strconv_Itoa (i : nat) : string := NilEmpty.string_of_uint (Nat.to_uint i).

Definition errors_wf11201 : string := "WF11201: partial success".

(** [newError]: an error that formats as the given text. *)
Definition errors_newError (text : string) : error := LibraryError text.

(** [errors.WF11201(request, response)]; the request and the response only
    go to the log. *)
Definition errors_WF11201 : error := errors_newError errors_wf11201.

Module sqs.

(** An error as the SDK returns it: an [awserr.Error], with its code and
    message, or an error of any other type. *)
Inductive sdkError :=
| awsError (code message : string)
| otherError (e : error).

(** The SDK's [sqs.Message]: body and receipt handle are pointers. *)
Record sdk_Message := { sdk_Body : option string; sdk_ReceiptHandle : option string }.

Record ReceiveMessageInput := {
  QueueUrl : option string;
  MaxNumberOfMessages : option Z;
  WaitTimeSeconds : option Z
}.

Record ReceiveMessageOutput := { Messages : list (option sdk_Message) }.

Record DeleteMessageBatchRequestEntry := {
  Id : option string;
  ReceiptHandle : option string
}.

Record DeleteMessageBatchInput := {
  batch_QueueUrl : option string;
  Entries : list DeleteMessageBatchRequestEntry
}.

(** The output of a batch deletion: the ids of the entries that failed. *)
Record DeleteMessageBatchOutput := { Failed : list string }.

Record Message := { Body : string; Handle : string }.

(** The queue: the embedded input for receiving (a pointer), the
    [receiveMessage] hook and the [DeleteMessageBatch] method promoted from
    the embedded SDK client. *)
Record queue := {
  input : option ReceiveMessageInput;
  receiveMessage :
    option ReceiveMessageInput -> option ReceiveMessageOutput * option sdkError;
  DeleteMessageBatch :
    DeleteMessageBatchInput -> option DeleteMessageBatchOutput * option sdkError
}.

Definition nonExistentQueueErrorCode : string := "AWS.SimpleQueueService.NonExistentQueue".

(** [NewMessageQueue(queueURL)] over the two calls of the SDK client that
    [sqs.New] builds. *)
Definition NewMessageQueue
  (ReceiveMessage :
     option ReceiveMessageInput -> option ReceiveMessageOutput * option sdkError)
  (DeleteMessageBatch :
     DeleteMessageBatchInput -> option DeleteMessageBatchOutput * option sdkError)
  (queueURL : string) : queue :=
  {| input := Some {| QueueUrl := Some queueURL;
                      MaxNumberOfMessages := Some 10%Z;
                      WaitTimeSeconds := Some 20%Z |};
     receiveMessage := ReceiveMessage;
     DeleteMessageBatch := DeleteMessageBatch |}.

Fixpoint adaptMessages (input : list (option sdk_Message)) : Outcome (list Message) :=
  match input with
  | [] => Ret []
  | message :: rest =>
      (m <- deref message ;;
       body <- deref (sdk_Body m) ;;
       handle <- deref (sdk_ReceiptHandle m) ;;
       output <- adaptMessages rest ;;
       Ret ({| Body := body; Handle := handle |} :: output))%outcome
  end.

(** What [panic(awsError)] unwinds with. *)
Definition panicOf (code message : string) : string :=
  String.append code (String.append ": " message).

Definition notAnAwsError : string := "interface conversion: error is not awserr.Error".

(** [Receive()]: the messages, whether there were any, and the error. *)
Definition Receive (q : queue) : Outcome (list Message * bool * option sdkError) :=
  let '(response, err) := receiveMessage q (input q) in
  let result : Outcome (list Message * bool * option sdkError) :=
    (r <- deref response ;;
     messages <- adaptMessages (Messages r) ;;
     Ret (messages, (0 <? List.length (Messages r))%nat, err))%outcome in
  match err with
  | None => result
  | Some (otherError _) => Panic notAnAwsError
  | Some (awsError code message) =>
      if String.eqb code nonExistentQueueErrorCode
      then Panic (panicOf code message)
      else result
  end.

(** The loop of [DeleteMessages] that fills the entries from index [i] on. *)
Fixpoint entriesFrom (i : nat) (handles : list string)
  : list DeleteMessageBatchRequestEntry :=
  match handles with
  | [] => []
  | handle :: rest =>
      {| Id := Some (strconv_Itoa i); ReceiptHandle := Some handle |}
      :: entriesFrom (S i) rest
  end.

Definition DeleteMessages (q : queue) (handles : list string) : Outcome (option sdkError) :=
  let entries := entriesFrom 0 handles in
  (receiveInput <- deref (input q) ;;
   let input := {| batch_QueueUrl := QueueUrl receiveInput; Entries := entries |} in
   let '(output, err) := DeleteMessageBatch q input in
   match err with
   | None =>
       out <- deref output ;;
       if (0 <? List.length (Failed out))%nat
       then Ret (Some (otherError errors_WF11201))
       else Ret None
   | Some e => Ret (Some e)
   end)%outcome.

End sqs.

(** A queue whose SDK hands back two messages together with a throttling
    error, and whose batch deletion reports as failed the entries that
    carry the handle [h2]. *)
Definition sampleQueue : sqs.queue :=
  sqs.NewMessageQueue
    (fun _ =>
       (Some {| sqs.Messages :=
                  [ Some {| sqs.sdk_Body := Some "first"%string;
                            sqs.sdk_ReceiptHandle := Some "h1"%string |};
                    Some {| sqs.sdk_Body := Some "second"%string;
                            sqs.sdk_ReceiptHandle := Some "h2"%string |} ] |},
        Some (sqs.awsError "RequestThrottled" "slow down")))
    (fun batch =>
       (Some {| sqs.Failed :=
                  flat_map (fun entry =>
                              match sqs.ReceiptHandle entry, sqs.Id entry with
                              | Some "h2"%string, Some id => [id]
                              | _, _ => []
                              end) (sqs.Entries batch) |}, None))
    "https://sqs.example/q".

(* ------------------------------------------------------------------ *)
(** ** The sync worker ([main]): choosing a client and syncing an account *)

(** [strings.Split(s, " ")] *)
Fixpoint strings_SplitOnSpace (s : string) : list string :=
  match s with
  | EmptyString => [EmptyString]
  | String c rest =>
      if Ascii.eqb c " "%char then EmptyString :: strings_SplitOnSpace rest
      else
        match strings_SplitOnSpace rest with
        | first :: more => String c first :: more
        | [] => [String c EmptyString]
        end
  end.

(** [strings.HasSuffix(s, suffix)] *)
Definition strings_HasSuffix (s suffix : string) : bool :=
  (String.length suffix <=? String.length s)%nat &&
  String.eqb
    (String.substring (String.length s - String.length suffix) (String.length suffix) s)
    suffix.

Module main.

Record account := {
  LoginType : string;
  Host : string;
  LoginInfo : string;
  Email : string;
  Password : string;
  RefreshToken : string
}.

(** What [createCalendarClient] and [syncAccount] return as an error: the
    malformed login info built with [fmt.Errorf], or a collaborator's error
    handed on. *)
Inductive syncError :=
| malformedLoginInfo (loginInfo : list string)
| collaboratorError (e : error).

Section Sync.

(** [calendar.Client] and [calendar.Event], which the worker only passes
    on. *)
Context {Client Event : Type}.

(** What the worker asks of its collaborators, in the order asked. *)
Inductive Op :=
| RetrieveUserSecret (key : string)
| NewEWSClient (url email password : string)
| NewGoogleClient (refreshToken : string)
| NewCalDAVClient (host email password : string)
| ReadClock
| CalendarEventsOf (client : Client) (startUTC endUTC : time.Time)
| DeleteUserEvents (userID : string)
| PutEvents (userID : string) (events : list Event).

(** The collaborators: secrets, the three client packages, the client's
    event query, the event store and the clock.  Each answers from what was
    asked before.  The constructor of the CalDAV client and a client's event
    query may panic, as [NewClient] and [CalendarEvents] above do; the event
    query returns Go's pair.  The other collaborators are taken to return. *)
Record World := {
  secrets_RetrieveUserSecret : list Op -> string -> string + error;
  ews_NewClient : string -> string -> string -> Client;
  google_NewCalendarClient : list Op -> string -> Client + error;
  caldav_NewClient : list Op -> string -> string -> string -> Outcome (Client + error);
  client_CalendarEvents :
    list Op -> Client -> time.Time -> time.Time -> Outcome (list Event * option error);
  parse_DeleteUserEvents : list Op -> string -> option error;
  parse_PutEvents : list Op -> string -> list Event -> option error;
  time_Now : list Op -> time.Time;
  time_AddDate : time.Time -> Z -> Z -> Z -> time.Time
}.

(** A computation of the worker: from what was asked so far to an outcome
    and what has been asked by then. *)
Definition Act (A : Type) : Type := list Op -> Outcome A * list Op.

Definition aret {A} (a : A) : Act A := fun ops => (Ret a, ops).
Definition abind {A B} (m : Act A) (f : A -> Act B) : Act B :=
  fun ops =>
    match m ops with
    | (Ret a, ops') => f a ops'
    | (Panic msg, ops') => (Panic msg, ops')
    end.

Definition alift {A} (o : Outcome A) : Act A := fun ops => (o, ops).

Definition ask {A} (op : Op) (answer : list Op -> A) : Act A :=
  fun ops => (Ret (answer ops), ops ++ [op]).

(** A request whose answer may be a panic. *)
Definition askOutcome {A} (op : Op) (answer : list Op -> Outcome A) : Act A :=
  fun ops => (answer ops, ops ++ [op]).

Definition office365 : string := "https://outlook.office365.com/EWS/Exchange.asmx".

Definition liftError {A} (r : A + error) : A + syncError :=
  match r with
  | inl a => inl a
  | inr e => inr (collaboratorError e)
  end.

(** [password, err := secrets.RetrieveUserSecret(account.Password)], then the
    client [build] makes with the password when there is no error. *)
Definition withSecret (w : World) (a : account) (build : string -> Act (Client + syncError))
  : Act (Client + syncError) :=
  abind (ask (RetrieveUserSecret (Password a))
           (fun ops => secrets_RetrieveUserSecret w ops (Password a)))
    (fun r => match r with
              | inr err => aret (inr (collaboratorError err))
              | inl password => build password
              end).

Definition newEWS (w : World) (url email password : string) : Act (Client + syncError) :=
  ask (NewEWSClient url email password) (fun _ => inl (ews_NewClient w url email password)).

Definition createCalendarClient (w : World) (account : option account)
  : Act (Client + syncError) :=
  abind (alift (deref account)) (fun a =>
  if String.eqb (LoginType a) "Exchange" then
    let loginInfo := strings_SplitOnSpace (LoginInfo a) in
    if (List.length loginInfo <? 3)%nat then aret (inr (malformedLoginInfo loginInfo))
    else withSecret w a (newEWS w (nth 2 loginInfo EmptyString) (Email a))
  else if strings_HasSuffix (Host a) "outlook.com"
          || strings_HasSuffix (Host a) "office365.com" then
    withSecret w a (newEWS w office365 (Email a))
  else if String.eqb (Host a) "imap.gmail.com" then
    ask (NewGoogleClient (RefreshToken a))
      (fun ops => liftError (google_NewCalendarClient w ops (RefreshToken a)))
  else
    withSecret w a (fun password =>
      abind (askOutcome (NewCalDAVClient (Host a) (Email a) password)
               (fun ops => caldav_NewClient w ops (Host a) (Email a) password))
        (fun r => aret (liftError r)))).



End Sync.

End main.

(** A world in which every collaborator answers: clients are named by the
    endpoint they were built for, the secret of a key is the key behind a
    prefix, and the store takes the deletion but refuses the events. *)
Definition sampleWorld : @main.World string nat :=
  {| main.secrets_RetrieveUserSecret := fun _ key => inl (String.append "secret-of-" key);
     main.ews_NewClient := fun url _ _ => String.append "ews:" url;
     main.google_NewCalendarClient := fun _ _ => inl "google"%string;
     main.caldav_NewClient := fun _ host _ _ => Ret (inl (String.append "caldav:" host));
     main.client_CalendarEvents := fun _ _ _ _ => Ret ([1; 2; 3]%nat, None);
     main.parse_DeleteUserEvents := fun _ _ => None;
     main.parse_PutEvents := fun _ _ _ => Some (LibraryError "store is full");
     main.time_Now := fun ops => time.mkTime (Z.of_nat (List.length ops));
     main.time_AddDate := fun t _ _ _ => t |}.

Definition exchangeAccount (loginInfo host : string) : main.account :=
  {| main.LoginType := "Exchange"; main.Host := host; main.LoginInfo := loginInfo;
     main.Email := "ann@example.org"; main.Password := "pw-key";
     main.RefreshToken := "token" |}.

Definition imapAccount (host : string) : main.account :=
  {| main.LoginType := "IMAP"; main.Host := host; main.LoginInfo := "";
     main.Email := "ann@example.org"; main.Password := "pw-key";
     main.RefreshToken := "token" |}.

(** A world whose CalDAV client is the client of [caldav.go] and
    [calendar.go] talking to the given server; the server is asked afresh
    each time.  The clients of the other packages are stand-ins that have no
    event. *)
Definition caldavWorld (server : @http_Client sampleExternal)
  : @main.World (option (@client sampleExternal)) (@calendarItem sampleExternal) :=
  {| main.secrets_RetrieveUserSecret := fun _ key => inl (String.append "secret-of-" key);
     main.ews_NewClient := fun _ _ _ => None;
     main.google_NewCalendarClient := fun _ _ => inl None;
     main.caldav_NewClient := fun _ host username password =>
       match fst (NewClient host username password server []) with
       | Ret (inl c) => Ret (inl (Some c))
       | Ret (inr err) => Ret (inr err)
       | Panic msg => Panic msg
       end;
     main.client_CalendarEvents := fun _ c startUTC endUTC =>
       match c with
       | Some c => fst (CalendarEvents c startUTC endUTC [])
       | None => Ret ([], None)
       end;
     main.parse_DeleteUserEvents := fun _ _ => None;
     main.parse_PutEvents := fun _ _ _ => None;
     main.time_Now := fun ops => time.mkTime (Z.of_nat (List.length ops));
     main.time_AddDate := fun t _ _ _ => t |}.

(* ------------------------------------------------------------------ *)
(** ** Proof automation *)

(** One step of a computation in [Go]: unfold the sequencing and split on
    the value under the innermost [match]. *)
Ltac go_unfold := unfold bind, lift, ret, Propfind, QueryEvents in *.
Ltac go_split :=
  match goal with
  | H : context [match ?x with _ => _ end] |- _ =>
      lazymatch x with
      | context [match _ with _ => _ end] => fail
      | _ => destruct x eqn:?
      end
  end.

(* ------------------------------------------------------------------ *)
(** * Properties *)

(** ** Time *)

Lemma IsZero_true_iff (t : time.Time) : time.IsZero t = true <-> t = time.zero.
Proof.
  destruct t as [ns]; unfold time.IsZero, time.zero; cbn.
  rewrite Z.eqb_eq. split; [intros -> | intros [= ->]]; reflexivity.
Qed.

(** Truncation to a positive unit gives the zero time exactly on the first
    unit after the zero time. *)
Lemma Truncate_zero_iff (t : time.Time) (d : time.Duration) :
  0 < d ->
  (time.Truncate t d = time.zero <-> 0 <= time.sinceZero t < d).
Proof.
  intros Hd. destruct t as [ns]. unfold time.Truncate, time.zero; cbn.
  destruct (d <=? 0) eqn:E; [apply Z.leb_le in E; lia|].
  pose proof (Z.mod_pos_bound ns d Hd) as Hb.
  split.
  - intros [= H]. lia.
  - intros H. rewrite (Z.mod_small ns d H). f_equal. lia.
Qed.

(** ** The item mapper *)

Section MapperFacts.

Context {ext : External}.

Lemma resolveAttendees_from_map (eventAttendees : list values_Attendee) :
  forall acc,
    resolveAttendees_from eventAttendees acc =
    acc ++ map (fun a =>
                  {| attendee_emailAddress := newEmailAddress (Attendee_Entry a);
                     attendee_responseType :=
                       convert_ParticipationStatusToMeetingResponseType
                         (Attendee_ParticipationStatus a) |}) eventAttendees.
Proof.
  induction eventAttendees as [|a rest IH]; intros acc; cbn.
  - now rewrite app_nil_r.
  - rewrite IH, <- app_assoc. reflexivity.
Qed.

Lemma resolveAttendees_map (eventAttendees : list values_Attendee) :
  resolveAttendees eventAttendees =
  map (fun a =>
         {| attendee_emailAddress := newEmailAddress (Attendee_Entry a);
            attendee_responseType :=
              convert_ParticipationStatusToMeetingResponseType
                (Attendee_ParticipationStatus a) |}) eventAttendees.
Proof. unfold resolveAttendees. now rewrite resolveAttendees_from_map. Qed.

Lemma findResponseType_no_match emailAddress (l : list attendee) :
  (forall a, In a l -> Address (attendee_EmailAddress a) <> emailAddress) ->
  findResponseType emailAddress l = rsvp_Unknown.
Proof.
  induction l as [|a rest IH]; intros H; cbn; [reflexivity|].
  destruct (String.eqb_spec (Address (attendee_EmailAddress a)) emailAddress) as [E|_].
  - exfalso. apply (H a); [now left | exact E].
  - apply IH. intros b Hb. apply H. now right.
Qed.

Lemma findResponseType_first_match emailAddress (before after : list attendee) a :
  (forall b, In b before -> Address (attendee_EmailAddress b) <> emailAddress) ->
  Address (attendee_EmailAddress a) = emailAddress ->
  findResponseType emailAddress (before ++ a :: after) = attendee_ResponseType a.
Proof.
  induction before as [|b rest IH]; intros Hb Ha; cbn.
  - rewrite Ha, String.eqb_refl. reflexivity.
  - destruct (String.eqb_spec (Address (attendee_EmailAddress b)) emailAddress) as [E|_].
    + exfalso. apply (Hb b); [now left | exact E].
    + apply IH; [|exact Ha]. intros c Hc. apply Hb. now right.
Qed.

(** Every list of attendees falls under one of the two cases. *)
Lemma findResponseType_cases emailAddress (l : list attendee) :
  (exists before a after,
     l = before ++ a :: after /\
     (forall b, In b before -> Address (attendee_EmailAddress b) <> emailAddress) /\
     Address (attendee_EmailAddress a) = emailAddress /\
     findResponseType emailAddress l = attendee_ResponseType a) \/
  ((forall a, In a l -> Address (attendee_EmailAddress a) <> emailAddress) /\
   findResponseType emailAddress l = rsvp_Unknown).
Proof.
  induction l as [|a rest IH].
  - right. split; [intros a [] | reflexivity].
  - destruct (String.eqb_spec (Address (attendee_EmailAddress a)) emailAddress) as [E|N].
    + left. exists [], a, rest. repeat split; [intros b [] | exact E |].
      now apply (findResponseType_first_match emailAddress [] rest a).
    + destruct IH as [(before & a' & after & -> & Hb & Ha & Hr)|[Hnone Hr]].
      * left. exists (a :: before), a', after. repeat split; [|exact Ha|].
        -- intros b [<-|Hin]; [exact N | now apply Hb].
        -- apply (findResponseType_first_match emailAddress (a :: before) after a');
             [|exact Ha].
           intros b [<-|Hin]; [exact N | now apply Hb].
      * right. split.
        -- intros b [<-|Hin]; [exact N | now apply Hnone].
        -- apply findResponseType_no_match.
           intros b [<-|Hin]; [exact N | now apply Hnone].
Qed.

Lemma unsafeToString_pointer (p : option Encodable) :
  unsafeToString (pointerValue p) =
  Ret match p with
      | None => ""%string
      | Some v =>
          match EncodeICalValue v with
          | (_, Some _) => ""%string
          | (s, None) => s
          end
      end.
Proof.
  destruct p as [v|]; cbn; [|reflexivity].
  destruct (EncodeICalValue v) as [s [err|]]; reflexivity.
Qed.

Lemma NativeTime_Ret (d : option values_DateTime) (t : time.Time) :
  NativeTime d = Ret t <-> exists v, d = Some v /\ DateTime_t v = t.
Proof.
  destruct d as [v|]; cbn.
  - split; [intros [= <-]; now exists v | intros (w & [= <-] & <-); reflexivity].
  - split; [discriminate | intros (w & H & _); discriminate].
Qed.

End MapperFacts.

(** C1, as the code has it: for every mapped event, [IsAllDay] is true if
    and only if the mapped start and the mapped end are both there and both,
    truncated to whole-millisecond resolution ([time.Millisecond]), equal
    the zero time. *)
Theorem IsAllDay_iff_truncated_to_millisecond (ext : External)
  (event : components_Event) (parentCalendar : calendarListEntry) :
  let item := newCalendarItem event parentCalendar in
  IsAllDay item = Ret true <->
  exists s e,
    Start item = Ret s /\ End_ item = Ret e /\
    time.Truncate s time.Millisecond = time.zero /\
    time.Truncate e time.Millisecond = time.zero.
Proof.
  cbv zeta. unfold IsAllDay, Start, End_. cbn [Event newCalendarItem].
  destruct (Event_DateStart event) as [ds|]; cbn [NativeTime obind deref].
  2:{ split; [discriminate | intros (s & e & H & _); discriminate]. }
  destruct (time.IsZero (time.Truncate (DateTime_t ds) time.Millisecond)) eqn:Hs.
  - destruct (Event_DateEnd event) as [de|]; cbn [NativeTime obind deref].
    2:{ split; [discriminate | intros (s & e & _ & H & _); discriminate]. }
    split.
    + intros [= He]. exists (DateTime_t ds), (DateTime_t de).
      repeat split; now apply IsZero_true_iff.
    + intros (s & e & [= <-] & [= <-] & _ & He).
      apply IsZero_true_iff in He. now rewrite He.
  - split; [discriminate|].
    intros (s & e & [= <-] & _ & H & _).
    apply IsZero_true_iff in H. congruence.
Qed.

(** C1, as the claim words it (whole-second resolution), fails: an event
    whose start and end lie five milliseconds after the zero time truncates
    to the zero time at one-second resolution, and is not an all-day event. *)
Lemma IsAllDay_whole_second_counterexample :
  let item := @newCalendarItem sampleExternal (eventAt 5000000 None []) sampleCalendar in
  ~ (IsAllDay item = Ret true <->
     exists s e,
       Start item = Ret s /\ End_ item = Ret e /\
       time.Truncate s time.Second = time.zero /\
       time.Truncate e time.Second = time.zero).
Proof.
  cbv zeta. intros [_ H].
  assert (E : IsAllDay (@newCalendarItem sampleExternal (eventAt 5000000 None []) sampleCalendar)
              = Ret true).
  { apply H. exists (time.mkTime 5000000), (time.mkTime 5000000).
    repeat split; reflexivity. }
  vm_compute in E. discriminate E.
Qed.

(** On a time that is a whole number of seconds the two resolutions agree:
    either truncation is the zero time exactly when the time is. *)
Lemma Truncate_whole_second (t : time.Time) :
  time.sinceZero t mod time.Second = 0 ->
  (time.Truncate t time.Millisecond = time.zero <-> t = time.zero) /\
  (time.Truncate t time.Second = time.zero <-> t = time.zero).
Proof.
  intros H.
  assert (Hms : 0 < time.Millisecond) by reflexivity.
  assert (Hs : 0 < time.Second) by reflexivity.
  rewrite (Truncate_zero_iff t _ Hms), (Truncate_zero_iff t _ Hs).
  destruct t as [ns]; cbn in *. unfold time.zero.
  apply Z.mod_divide in H; [|discriminate]. destruct H as [k Hk].
  change time.Second with 1000000000 in *. change time.Millisecond with 1000000.
  split; (split; [intros Hr; f_equal; lia | intros [= ->]; lia]).
Qed.

(** C10: the item's identifier and its uid are the same field of the raw
    event, for every item and so for every mapped event. *)
Theorem CalendarItemID_eq_UID (ext : External) :
  (forall item : calendarItem, CalendarItemID item = UID item) /\
  (forall (event : components_Event) (parentCalendar : calendarListEntry),
     CalendarItemID (newCalendarItem event parentCalendar) = Event_UID event /\
     UID (newCalendarItem event parentCalendar) = Event_UID event).
Proof. split; [intros item | intros event parentCalendar; split]; reflexivity. Qed.

(** C7: the top-level response type of a mapped event is [Unknown] when no
    attendee's address equals the owning calendar's account address
    (equality of the address strings, the name playing no part), and
    otherwise it is the response type of the first attendee whose address
    does; with no attendees it is [Unknown], whoever the organizer is.  The
    attendees are the raw event's, in its order, and one of the two cases
    always applies. *)
Theorem ResponseType_of_matching_attendee (ext : External)
  (event : components_Event) (parentCalendar : calendarListEntry) :
  let item := newCalendarItem event parentCalendar in
  let account := cal_emailAddress parentCalendar in
  ((forall a, In a (Attendees item) ->
              Address (attendee_EmailAddress a) <> account) ->
   ResponseType item = rsvp_Unknown) /\
  (forall before a after,
     Attendees item = before ++ a :: after ->
     (forall b, In b before -> Address (attendee_EmailAddress b) <> account) ->
     Address (attendee_EmailAddress a) = account ->
     ResponseType item = attendee_ResponseType a) /\
  (Event_Attendees event = [] ->
   Attendees item = [] /\ ResponseType item = rsvp_Unknown) /\
  Attendees item =
    map (fun a =>
           {| attendee_emailAddress := newEmailAddress (Attendee_Entry a);
              attendee_responseType :=
                convert_ParticipationStatusToMeetingResponseType
                  (Attendee_ParticipationStatus a) |}) (Event_Attendees event) /\
  ((exists before a after,
      Attendees item = before ++ a :: after /\
      (forall b, In b before -> Address (attendee_EmailAddress b) <> account) /\
      Address (attendee_EmailAddress a) = account /\
      ResponseType item = attendee_ResponseType a) \/
   ((forall a, In a (Attendees item) ->
               Address (attendee_EmailAddress a) <> account) /\
    ResponseType item = rsvp_Unknown)).
Proof.
  cbv zeta. unfold ResponseType, Attendees. cbn [responseType attendees newCalendarItem].
  split; [|split; [|split; [|split]]].
  - apply findResponseType_no_match.
  - intros before a after -> Hb Ha. now apply findResponseType_first_match.
  - intros Hnone. now rewrite Hnone.
  - apply resolveAttendees_map.
  - apply findResponseType_cases.
Qed.

(** The account [ann@example.org] declined under one name and accepted under
    another, after an attendee with another address: the first match counts.
    An address that differs in case is no match, and an organizer with the
    account's address but no attendee leaves the response type unknown. *)
Lemma ResponseType_of_matching_attendee_witness :
  ResponseType
    (@newCalendarItem sampleExternal
       (eventAt 0 None [invitee "Bob" "bob@example.org" Accepted;
                        invitee "A." "ann@example.org" Declined;
                        invitee "Ann" "ann@example.org" Accepted]) sampleCalendar)
  = Decline /\
  ResponseType
    (@newCalendarItem sampleExternal
       (eventAt 0 None [invitee "Ann" "Ann@example.org" Accepted]) sampleCalendar)
  = Unknown /\
  ResponseType
    (@newCalendarItem sampleExternal
       (eventAt 0 (Some {| OrganizerContact_Entry := contact "Ann" "ann@example.org" |}) [])
       sampleCalendar)
  = Unknown.
Proof.
  split; [|split].
  - apply (proj1 (proj2 (ResponseType_of_matching_attendee sampleExternal _ sampleCalendar))
             [guest "Bob" "bob@example.org" Accept]
             (guest "A." "ann@example.org" Decline)
             [guest "Ann" "ann@example.org" Accept]).
    + reflexivity.
    + intros b [<-|[]]. cbn. discriminate.
    + reflexivity.
  - apply (proj1 (ResponseType_of_matching_attendee sampleExternal _ sampleCalendar)).
    intros a [<-|[]]. cbn. discriminate.
  - apply (proj1 (proj2 (proj2 (ResponseType_of_matching_attendee sampleExternal _ sampleCalendar)))).
    reflexivity.
Defined.

(** The part of C3 the code does honour: [newCalendarItem] is defined on
    every raw event and owning calendar and has no error result; the item
    keeps the event and the calendar.  A nil url or location (the nil
    pointer reaches [unsafeToString] wrapped in a non-nil interface value)
    and a failed encoding read as the empty string, [unsafeToString] of the
    nil interface is the empty string too, neither accessor panics, and a
    nil organizer reads as no organizer. *)
Theorem newCalendarItem_defaults (ext : External)
  (event : components_Event) (parentCalendar : calendarListEntry) :
  let item := newCalendarItem event parentCalendar in
  (Event item = event /\ calendar item = parentCalendar) /\
  (unsafeToString nilInterface = Ret ""%string /\
   unsafeToString (pointerValue None) = Ret ""%string) /\
  ((Event_Url event = None -> URL item = Ret ""%string) /\
   (forall v s err, Event_Url event = Some v ->
      EncodeICalValue v = (s, Some err) -> URL item = Ret ""%string) /\
   (forall v s, Event_Url event = Some v ->
      EncodeICalValue v = (s, None) -> URL item = Ret s)) /\
  ((Event_Location event = None -> Location item = Ret ""%string) /\
   (forall v s err, Event_Location event = Some v ->
      EncodeICalValue v = (s, Some err) -> Location item = Ret ""%string) /\
   (forall v s, Event_Location event = Some v ->
      EncodeICalValue v = (s, None) -> Location item = Ret s)) /\
  ((exists s, URL item = Ret s) /\ (exists s, Location item = Ret s)) /\
  ((Event_Organizer event = None -> Organizer item = None) /\
   (forall o, Event_Organizer event = Some o ->
      Organizer item = Some (newEmailAddress (OrganizerContact_Entry o)))).
Proof.
  cbv zeta. unfold URL, Location, Organizer.
  cbn [Event calendar organizer newCalendarItem].
  rewrite !unsafeToString_pointer.
  split; [split; reflexivity|].
  split; [split; reflexivity|].
  split; [|split; [|split]].
  - repeat split.
    + now intros ->.
    + intros v s err -> E. now rewrite E.
    + intros v s -> E. now rewrite E.
  - repeat split.
    + now intros ->.
    + intros v s err -> E. now rewrite E.
    + intros v s -> E. now rewrite E.
  - split; eexists; reflexivity.
  - split.
    + now intros ->.
    + now intros o ->.
Qed.

(** An event whose url fails to encode, with no location and no organizer;
    and one whose location encodes. *)
Lemma newCalendarItem_defaults_witness :
  (URL (@newCalendarItem sampleExternal (eventWith (Some undecodable) None) sampleCalendar)
   = Ret ""%string /\
   Location (@newCalendarItem sampleExternal (eventWith (Some undecodable) None) sampleCalendar)
   = Ret ""%string /\
   Organizer (@newCalendarItem sampleExternal (eventWith (Some undecodable) None) sampleCalendar)
   = None) /\
  Location (@newCalendarItem sampleExternal
              (eventWith None (Some (encoded "Room 4"))) sampleCalendar)
  = Ret "Room 4"%string.
Proof.
  pose proof (newCalendarItem_defaults sampleExternal
                (eventWith (Some undecodable) None) sampleCalendar) as H.
  pose proof (newCalendarItem_defaults sampleExternal
                (eventWith None (Some (encoded "Room 4"))) sampleCalendar) as H'.
  cbv zeta in H, H'.
  destruct H as (_ & _ & (_ & Hurl & _) & (Hloc & _) & _ & (Horg & _)).
  destruct H' as (_ & _ & _ & (_ & _ & Hloc') & _).
  split; [split; [|split]|].
  - apply (Hurl undecodable "ignored"%string (LibraryError "cannot encode")); reflexivity.
  - apply Hloc. reflexivity.
  - apply Horg. reflexivity.
  - apply (Hloc' (encoded "Room 4")); reflexivity.
Defined.

Section AbsentDates.

Context {ext : External}.

(** The date accessors of a mapped item read through the event's pointers
    unguarded: each panics exactly when its date is absent, and
    [LastModifiedAt], which guards its own date, exactly when the creation
    time it falls back to is absent as well. *)
Lemma date_accessors_panic_iff (item : calendarItem) :
  ((exists msg, Start item = Panic msg) <-> Event_DateStart (Event item) = None) /\
  ((exists msg, End_ item = Panic msg) <-> Event_DateEnd (Event item) = None) /\
  ((exists msg, CreatedAt item = Panic msg) <-> Event_Created (Event item) = None) /\
  ((exists msg, LastModifiedAt item = Panic msg) <->
   Event_LastModified (Event item) = None /\ Event_Created (Event item) = None).
Proof.
  assert (Hn : forall d : option values_DateTime,
             (exists msg, NativeTime d = Panic msg) <-> d = None).
  { intros [d|]; cbn; split; try discriminate; try reflexivity.
    - intros [msg H]. discriminate H.
    - intros _. eexists. reflexivity. }
  unfold Start, End_, CreatedAt, LastModifiedAt.
  split; [apply Hn|]. split; [apply Hn|]. split; [apply Hn|].
  destruct (Event_LastModified (Event item)) as [d|].
  - split.
    + intros [msg H]. discriminate H.
    + intros [H _]. discriminate H.
  - split.
    + intros H. split; [reflexivity | now apply Hn].
    + intros [_ H]. now apply Hn.
Qed.

End AbsentDates.

(** C3: the mapping is not total.  On an event with a start time and no end
    time, creation time or last-modified time, [newCalendarItem] returns an
    item whose url and location read as the empty string, whose organizer is
    absent and whose start is the event's, but whose [End_], [CreatedAt] and
    [LastModifiedAt] panic on the nil pointer; so does [IsAllDay] when the
    start is the zero time.  No default stands in for the absent dates. *)
Theorem newCalendarItem_absent_dates_panic :
  let item :=
    @newCalendarItem sampleExternal (openEndedEvent 3600000000000) sampleCalendar in
  (URL item = Ret ""%string /\ Location item = Ret ""%string /\ Organizer item = None /\
   Start item = Ret (time.mkTime 3600000000000) /\ IsAllDay item = Ret false) /\
  End_ item = Panic nilDereference /\
  CreatedAt item = Panic nilDereference /\
  LastModifiedAt item = Panic nilDereference /\
  IsAllDay (@newCalendarItem sampleExternal (openEndedEvent 0) sampleCalendar) =
    Panic nilDereference.
Proof. cbv zeta. repeat split; reflexivity. Qed.

(** ** Discovery *)

Section DiscoveryFacts.

Context {ext : External}.

Lemma attempted_app (a b : list Call) :
  attempted (a ++ b) = attempted a ++ attempted b.
Proof.
  induction a as [|c a IH]; [reflexivity|].
  destruct c as [server path [|] body|server path query]; cbn; rewrite ?IH; try reflexivity.
  destruct (asksCurrentUserPrincipal body); cbn; now rewrite ?IH.
Qed.

(** Whatever it comes to, [findCalendarHomeSet] extends the history, and the
    one candidate its calls show as attempted is its own. *)
Lemma findCalendarHomeSet_attempts (client : caldav_Client) (path : string)
  (calls calls' : list Call) o :
  findCalendarHomeSet client path calls = (o, calls') ->
  exists added, calls' = calls ++ added /\ attempted added = [path].
Proof.
  unfold findCalendarHomeSet. go_unfold. intros H.
  repeat go_split; inversion H; subst; clear H;
    first [ exists [PropfindCall (Client_server client) path Depth0
                      findCurrentUserPrincipalRequestBody];
            split; [reflexivity | reflexivity]
          | eexists [PropfindCall (Client_server client) path Depth0
                       findCurrentUserPrincipalRequestBody;
                     PropfindCall (Client_server client) _ Depth0
                       findCalendarHomeSetRequestBody];
            split; [rewrite <- app_assoc; reflexivity | reflexivity] ].
Qed.

Lemma AllFail_length host httpClient candidates calls errs calls' :
  AllFail host httpClient candidates calls errs calls' ->
  List.length errs = List.length candidates.
Proof. induction 1; cbn; congruence. Qed.

Lemma AllFail_attempts host httpClient candidates calls errs calls' :
  AllFail host httpClient candidates calls errs calls' ->
  exists added, calls' = calls ++ added /\ attempted added = candidates.
Proof.
  induction 1 as [calls|path rest calls err calls1 errs calls2 Hf _ (added2 & -> & Ha2)].
  - exists []. now rewrite app_nil_r.
  - apply findCalendarHomeSet_attempts in Hf as (added1 & -> & Ha1).
    exists (added1 ++ added2). rewrite app_assoc, attempted_app, Ha1, Ha2. now split.
Qed.

(** Past candidates that all fail, the loop goes on with the candidates
    left, the errors appended in candidate order. *)
Lemma discoverServer_from_AllFail host httpClient candidates calls errs calls' :
  AllFail host httpClient candidates calls errs calls' ->
  forall rest acc,
    discoverServer_from host httpClient (candidates ++ rest) acc calls =
    discoverServer_from host httpClient rest (acc ++ errs) calls'.
Proof.
  induction 1 as [calls|path cands calls err calls1 errs calls2 Hf _ IH]; intros rest acc.
  - now rewrite app_nil_r.
  - cbn [app discoverServer_from]. unfold bind at 1.
    rewrite Hf.
    rewrite IH, <- app_assoc. reflexivity.
Qed.

(** A run of the loop that ends in an error tried every candidate left, and
    every one failed. *)
Lemma discoverServer_from_error host httpClient candidates :
  forall acc calls e calls',
    discoverServer_from host httpClient candidates acc calls = (Ret (inr e), calls') ->
    exists errs,
      AllFail host httpClient candidates calls errs calls' /\
      e = errors.WF11301 (acc ++ errs).
Proof.
  induction candidates as [|path rest IH]; intros acc calls e calls' H.
  - cbn in H. unfold ret in H. inversion H; subst.
    exists []. split; [constructor | now rewrite app_nil_r].
  - cbn [discoverServer_from] in H. unfold bind at 1 in H.
    destruct (findCalendarHomeSet (candidateClient host httpClient) path calls)
      as [[[hs|err]|msg] calls1] eqn:Hf.
    + unfold ret in H. discriminate H.
    + apply IH in H as (errs & Hall & ->).
      exists (err :: errs). split; [econstructor; eassumption|].
      now rewrite <- app_assoc.
    + discriminate H.
Qed.

(** In every run of the loop, whatever it comes to, the candidates attempted
    are an initial stretch of the candidates left, in order, and every one of
    them but possibly the last failed. *)
Lemma discoverServer_from_attempts host httpClient candidates :
  forall acc calls o calls',
    discoverServer_from host httpClient candidates acc calls = (o, calls') ->
    exists failed errs calls1 added,
      AllFail host httpClient failed calls errs calls1 /\
      calls' = calls ++ added /\
      ((attempted added = failed /\ candidates = failed) \/
       (exists path rest,
          attempted added = failed ++ [path] /\ candidates = failed ++ path :: rest)).
Proof.
  induction candidates as [|path rest IH]; intros acc calls o calls' H.
  - cbn in H. unfold ret in H. inversion H; subst.
    exists [], [], calls', []. rewrite app_nil_r.
    split; [constructor|]. split; [reflexivity|]. now left.
  - cbn [discoverServer_from] in H. unfold bind at 1 in H.
    destruct (findCalendarHomeSet (candidateClient host httpClient) path calls)
      as [r calls1] eqn:Hf.
    destruct (findCalendarHomeSet_attempts _ _ _ _ _ Hf) as (added1 & E1 & Ha1).
    destruct r as [[hs|err]|msg].
    + unfold ret in H. inversion H; subst.
      exists [], [], calls, added1. split; [constructor|]. split; [reflexivity|].
      right. exists path, rest. now split.
    + apply IH in H as (failed & errs & calls2 & added & Hall & -> & Hcase).
      exists (path :: failed), (err :: errs), calls2, (added1 ++ added).
      split; [econstructor; eassumption|].
      split; [subst calls1; now rewrite app_assoc|].
      rewrite attempted_app, Ha1. cbn [app].
      destruct Hcase as [[-> ->]|(p & rest' & -> & ->)].
      * now left.
      * right. exists p, rest'. now split.
    + inversion H; subst.
      exists [], [], calls, added1. split; [constructor|]. split; [reflexivity|].
      right. exists path, rest. now split.
Qed.

End DiscoveryFacts.

(** C4: when every candidate of [paths] fails, discovery returns one
    aggregate error: its message is that of [WF11301] and its cause list is
    exactly the candidates' errors, one per candidate and in candidate
    order; [NewClient] hands it on.  An error of discovery is never anything
    else. *)
Theorem discoverServer_aggregates_all_failures (ext : External)
  (host : string) (httpClient : http_Client) (calls : list Call) :
  (forall errs calls',
     AllFail host httpClient paths calls errs calls' ->
     discoverServer host httpClient calls =
       (Ret (inr (AggregateError errors.wf11301 errs)), calls') /\
     error_causes (AggregateError errors.wf11301 errs) = errs /\
     List.length errs = List.length paths /\
     (forall username password,
        NewClient host username password httpClient calls =
        (Ret (inr (AggregateError errors.wf11301 errs)), calls'))) /\
  (forall e calls',
     discoverServer host httpClient calls = (Ret (inr e), calls') ->
     exists errs,
       AllFail host httpClient paths calls errs calls' /\
       e = AggregateError errors.wf11301 errs /\
       error_causes e = errs /\
       List.length (error_causes e) = List.length paths).
Proof.
  split.
  - intros errs calls' Hall.
    assert (E : discoverServer host httpClient calls =
                (Ret (inr (AggregateError errors.wf11301 errs)), calls')).
    { unfold discoverServer.
      rewrite <- (app_nil_r paths), (discoverServer_from_AllFail _ _ _ _ _ _ Hall).
      reflexivity. }
    split; [exact E|]. split; [reflexivity|].
    split; [exact (AllFail_length _ _ _ _ _ _ Hall)|].
    intros username password. unfold NewClient, bind. now rewrite E.
  - intros e calls' H. unfold discoverServer in H.
    apply discoverServer_from_error in H as (errs & Hall & ->).
    exists errs. split; [exact Hall|]. split; [reflexivity|].
    split; [reflexivity|]. exact (AllFail_length _ _ _ _ _ _ Hall).
Qed.

(** On a server where every request fails with an error naming its path, the
    causes are the four candidates' errors in the order of [paths]. *)
Lemma discoverServer_aggregates_all_failures_witness :
  exists calls' e,
    @discoverServer sampleExternal "cal.example.org" failingServer [] =
      (Ret (inr e), calls') /\
    error_causes e =
      [LibraryError ""; LibraryError "/caldav";
       LibraryError "/caldav/st"; LibraryError "/.well-known/caldav"].
Proof.
  eexists. eexists.
  destruct (proj1 (discoverServer_aggregates_all_failures sampleExternal
                     "cal.example.org" failingServer [])
              [LibraryError ""; LibraryError "/caldav";
               LibraryError "/caldav/st"; LibraryError "/.well-known/caldav"]
              (snd (@discoverServer sampleExternal "cal.example.org" failingServer [])))
    as (E & Hc & _).
  - repeat (econstructor; [reflexivity|]). constructor.
  - split; [exact E | exact Hc].
Defined.

(** C5: discovery tries the candidates of [paths] in order and stops at the
    first that succeeds.  In every run the candidates attempted are an initial
    stretch of [paths] of which every one but possibly the last failed; and
    when the candidates before [path] fail and [path] succeeds, discovery
    returns the client of that candidate with its calendar home set, the
    candidates attempted are those up to [path] and no other, and [NewClient]
    returns a client bound to the unescaped calendar-home path. *)
Theorem discoverServer_first_success_wins (ext : External)
  (host : string) (httpClient : http_Client) (calls : list Call) :
  (forall o calls',
     discoverServer host httpClient calls = (o, calls') ->
     exists failed errs calls1 added,
       AllFail host httpClient failed calls errs calls1 /\
       calls' = calls ++ added /\
       ((attempted added = failed /\ paths = failed) \/
        (exists path rest,
           attempted added = failed ++ [path] /\ paths = failed ++ path :: rest))) /\
  (forall before path after errs calls1 homeSet calls2,
     paths = before ++ path :: after ->
     AllFail host httpClient before calls errs calls1 ->
     findCalendarHomeSet (candidateClient host httpClient) path calls1
       = (Ret (inl homeSet), calls2) ->
     discoverServer host httpClient calls
       = (Ret (inl (candidateClient host httpClient, homeSet)), calls2) /\
     (exists added, calls2 = calls ++ added /\ attempted added = before ++ [path]) /\
     (forall hs home username password,
        homeSet = Some hs ->
        url.QueryUnescape (props.CalendarHomeSet_Href hs) = inl home ->
        NewClient host username password httpClient calls =
        (Ret (inl {| client_path := home;
                     client_emailAddress := username;
                     client_calendarClient := candidateClient host httpClient |}),
         calls2))).
Proof.
  split.
  - intros o calls' H. exact (discoverServer_from_attempts _ _ _ _ _ _ _ H).
  - intros before path after errs calls1 homeSet calls2 Hp Hall Hf.
    assert (E : discoverServer host httpClient calls =
                (Ret (inl (candidateClient host httpClient, homeSet)), calls2)).
    { unfold discoverServer. rewrite Hp.
      rewrite (discoverServer_from_AllFail _ _ _ _ _ _ Hall).
      cbn [discoverServer_from]. unfold bind at 1.
      now rewrite Hf. }
    split; [exact E|]. split.
    + destruct (AllFail_attempts _ _ _ _ _ _ Hall) as (added1 & -> & Ha1).
      destruct (findCalendarHomeSet_attempts _ _ _ _ _ Hf) as (added2 & -> & Ha2).
      exists (added1 ++ added2). rewrite app_assoc, attempted_app, Ha1, Ha2. now split.
    + intros hs home username password -> Hu.
      unfold NewClient, bind at 1. rewrite E. unfold bind, lift, deref.
      now rewrite Hu.
Qed.

(** On [exampleServer], where the candidates [""] and [/caldav] fail and
    [/caldav/st] succeeds, the client is bound to the unescaped home path and
    [/.well-known/caldav] is never asked. *)
Lemma discoverServer_first_success_wins_witness :
  exists calls',
    @NewClient sampleExternal "cal.example.org" "ann@example.org" "secret"
      (exampleServer true) [] =
    (Ret (inl (exampleClient true)), calls') /\
    attempted calls' = [""; "/caldav"; "/caldav/st"]%string.
Proof.
  pose proof (proj2 (discoverServer_first_success_wins sampleExternal
                       "cal.example.org" (exampleServer true) [])
                [""; "/caldav"]%string "/caldav/st"%string ["/.well-known/caldav"]%string)
    as H.
  edestruct H as (_ & (added & Hc & Ha) & Hnew).
  - reflexivity.
  - repeat (econstructor; [reflexivity|]). constructor.
  - reflexivity.
  - eexists. split.
    + apply (Hnew {| props.CalendarHomeSet_Href := "/calendars/ann%40example.org/" |}
               "/calendars/ann@example.org/"%string); reflexivity.
    + rewrite Hc. exact Ha.
Defined.

(** C2, at the inputs where the code departs from it.  A server answers the
    first property query with a successful response that carries no
    current-user-principal: [findCalendarHomeSet] dereferences the missing
    property and panics, and so does [NewClient].  A server answers the
    second query with a response that carries no calendar-home-set:
    [findCalendarHomeSet] reports success with a nil home set, and
    [NewClient] panics on it.  No error value is returned in either case. *)
Theorem discovery_missing_property_panics :
  (exists calls',
     @findCalendarHomeSet sampleExternal
       (candidateClient "cal.example.org" serverWithoutPrincipal) "" [] =
     (Panic nilDereference, calls')) /\
  (exists calls',
     @NewClient sampleExternal "cal.example.org" "ann@example.org" "secret"
       serverWithoutPrincipal [] =
     (Panic nilDereference, calls')) /\
  (exists calls',
     @findCalendarHomeSet sampleExternal
       (candidateClient "cal.example.org" serverWithoutHomeSet) "" [] =
     (Ret (inl None), calls')) /\
  (exists calls',
     @NewClient sampleExternal "cal.example.org" "ann@example.org" "secret"
       serverWithoutHomeSet [] =
     (Panic nilDereference, calls')).
Proof. repeat split; eexists; reflexivity. Qed.

Section DiscoveryErrors.

Context {ext : External}.

(** The part of C2 the code does honour: a principal reference that cannot
    be unescaped makes the candidate fail with the unescape error, after the
    one request. *)
Lemma findCalendarHomeSet_unescape_error (client : caldav_Client) (path : string)
  (calls : list Call) multistatus prop principal err :
  propfindReply (Client_http client) calls (Client_server client) path Depth0
    findCurrentUserPrincipalRequestBody = inl multistatus ->
  firstProp multistatus = Ret prop ->
  props.Prop_CurrentUserPrincipal prop = Some principal ->
  url.QueryUnescape (props.CurrentUserPrincipal_Href principal) = inr err ->
  findCalendarHomeSet client path calls =
  (Ret (inr err),
   calls ++ [PropfindCall (Client_server client) path Depth0
               findCurrentUserPrincipalRequestBody]).
Proof.
  intros Hr Hp Hc Hu. unfold findCalendarHomeSet. go_unfold.
  rewrite Hr, Hp, Hc. cbn [deref]. now rewrite Hu.
Qed.

(** A calendar-home reference that cannot be unescaped makes [NewClient]
    return the unescape error. *)
Lemma NewClient_unescape_error (host username password : string)
  (httpClient : http_Client) (calls calls' : list Call) calendarClient hs err :
  discoverServer host httpClient calls = (Ret (inl (calendarClient, Some hs)), calls') ->
  url.QueryUnescape (props.CalendarHomeSet_Href hs) = inr err ->
  NewClient host username password httpClient calls = (Ret (inr err), calls').
Proof.
  intros Hd Hu. unfold NewClient, bind at 1. rewrite Hd.
  unfold bind, lift, deref. now rewrite Hu.
Qed.

End DiscoveryErrors.

Lemma findCalendarHomeSet_unescape_error_example :
  fst (@findCalendarHomeSet sampleExternal
         (candidateClient "cal.example.org" serverWithBadEscape) "/caldav" [])
  = Ret (inr (EscapeError "%zz")).
Proof.
  erewrite findCalendarHomeSet_unescape_error; reflexivity.
Qed.

(** ** Enumeration *)

Section CalendarFacts.

Context {ext : External}.

(** The inner loop appends the entry exactly when some component is the
    event type, and then once. *)
Lemma findCalendars_components_spec (c : client) (response : props.Response)
  (components : list props.Comp) (calendars : list calendarListEntry) :
  findCalendars_components c response components calendars =
  if existsb (fun component => String.eqb (props.Comp_Name component) calendarType) components
  then
    match url.QueryUnescape (props.Response_Href response) with
    | inr err => Ret (inr err)
    | inl path =>
        (prop <- responseProp response ;;
         Ret (inl (calendars ++
           [ {| cal_path := path;
                cal_emailAddress := client_emailAddress c;
                cal_displayName := props.Prop_DisplayName prop;
                cal_timeZone := extractTimeZoneID (props.Prop_CalendarTimezone prop) |} ])))%outcome
    end
  else Ret (inl calendars).
Proof.
  induction components as [|component rest IH]; cbn [findCalendars_components existsb].
  - reflexivity.
  - destruct (String.eqb (props.Comp_Name component) calendarType); cbn [orb].
    + reflexivity.
    + exact IH.
Qed.

(** One round of the outer loop on a response that is left out. *)
Lemma findCalendars_from_skip (c : client) response rest calendars :
  readable response = true ->
  supportsEvents response = false ->
  findCalendars_from c (response :: rest) calendars = findCalendars_from c rest calendars.
Proof.
  unfold readable, supportsEvents. cbn [findCalendars_from].
  destruct (props.Response_PropStats response) as [|propertyStatus more]; [discriminate|].
  cbn [first obind].
  destruct (String.eqb (props.PropStat_Status propertyStatus) httpOK); [|reflexivity].
  destruct (props.PropStat_Prop propertyStatus) as [prop|]; [|discriminate].
  cbn [deref obind andb]. intros _ Hs.
  destruct (props.Prop_SupportedCalendarComponentSet prop) as [set|]; [|reflexivity].
  rewrite findCalendars_components_spec, Hs. reflexivity.
Qed.

(** One round of the outer loop on a response that is kept. *)
Lemma findCalendars_from_keep (c : client) response rest calendars :
  supportsEvents response = true ->
  unescapable response = true ->
  findCalendars_from c (response :: rest) calendars =
  findCalendars_from c rest (calendars ++ [entryOf c response]).
Proof.
  unfold supportsEvents, unescapable, entryOf, responseProp. cbn [findCalendars_from].
  destruct (props.Response_PropStats response) as [|propertyStatus more] eqn:Eps;
    [discriminate|].
  cbn [first obind].
  destruct (String.eqb (props.PropStat_Status propertyStatus) httpOK); [|discriminate].
  destruct (props.PropStat_Prop propertyStatus) as [prop|] eqn:Eprop; [|discriminate].
  cbn [deref obind andb]. intros Hs Hu.
  destruct (props.Prop_SupportedCalendarComponentSet prop) as [set|]; [|discriminate].
  rewrite findCalendars_components_spec, Hs.
  destruct (url.QueryUnescape (props.Response_Href response)) as [path|err]; [|discriminate].
  unfold responseProp. rewrite Eps. cbn [first obind]. rewrite Eprop. reflexivity.
Qed.

(** Past responses that are readable and whose kept entries can be
    unescaped, the loop goes on with the responses left, the kept entries
    appended in response order. *)
Lemma findCalendars_from_app (c : client) (responses : list props.Response) :
  forall rest calendars,
    forallb readable responses = true ->
    forallb unescapable (filter supportsEvents responses) = true ->
    findCalendars_from c (responses ++ rest) calendars =
    findCalendars_from c rest
      (calendars ++ map (entryOf c) (filter supportsEvents responses)).
Proof.
  induction responses as [|response more IH]; intros rest calendars Hr Hu.
  - cbn. now rewrite app_nil_r.
  - cbn [forallb] in Hr. apply andb_prop in Hr as [Hr1 Hr2].
    cbn [filter app] in *. destruct (supportsEvents response) eqn:Hs.
    + cbn [forallb] in Hu. apply andb_prop in Hu as [Hu1 Hu2].
      rewrite (findCalendars_from_keep _ _ _ _ Hs Hu1), (IH _ _ Hr2 Hu2).
      cbn [map]. now rewrite <- app_assoc.
    + rewrite (findCalendars_from_skip _ _ _ _ Hr1 Hs). now apply IH.
Qed.

Lemma findCalendars_from_filter (c : client) (responses : list props.Response) :
  forall calendars,
    forallb readable responses = true ->
    forallb unescapable (filter supportsEvents responses) = true ->
    findCalendars_from c responses calendars =
    Ret (inl (calendars ++ map (entryOf c) (filter supportsEvents responses))).
Proof.
  intros calendars Hr Hu.
  rewrite <- (app_nil_r responses) at 1.
  now rewrite (findCalendars_from_app _ _ _ _ Hr Hu).
Qed.

(** The first kept response whose reference cannot be unescaped fails the
    whole enumeration with the unescape error: the entries kept before it
    are not returned. *)
Lemma findCalendars_from_unescape_error (c : client) before response after calendars err :
  forallb readable before = true ->
  forallb unescapable (filter supportsEvents before) = true ->
  supportsEvents response = true ->
  url.QueryUnescape (props.Response_Href response) = inr err ->
  findCalendars_from c (before ++ response :: after) calendars = Ret (inr err).
Proof.
  intros Hr Hu. rewrite (findCalendars_from_app _ _ _ _ Hr Hu).
  unfold supportsEvents. cbn [findCalendars_from].
  destruct (props.Response_PropStats response) as [|propertyStatus more]; [discriminate|].
  cbn [first obind].
  destruct (String.eqb (props.PropStat_Status propertyStatus) httpOK); [|discriminate].
  destruct (props.PropStat_Prop propertyStatus) as [prop|]; [|discriminate].
  cbn [deref obind andb]. intros Hs Hbad.
  destruct (props.Prop_SupportedCalendarComponentSet prop) as [set|]; [|discriminate].
  rewrite findCalendars_components_spec, Hs, Hbad. reflexivity.
Qed.

End CalendarFacts.

(** C6, as amended: for every response set whose responses are readable
    (each has a property status, a successful one with its properties) and
    in which the references of the entries kept can be unescaped,
    [findCalendars] returns exactly the entries of the responses whose first
    property status is a success ([httpOK]) and whose supported component
    set names the event type ([calendarType]), in the order of the
    responses; the others, calendars of to-dos or journals among them, are
    left out and cause no error. *)
Theorem findCalendars_keeps_event_calendars (ext : External)
  (c : client) (calls : list Call) (multistatus : props.Multistatus) :
  propfindReply (Client_http (client_calendarClient c)) calls
    (Client_server (client_calendarClient c)) (client_path c) Depth1
    findCalendarsRequestBody = inl multistatus ->
  forallb readable (props.Multistatus_Responses multistatus) = true ->
  forallb unescapable
    (filter supportsEvents (props.Multistatus_Responses multistatus)) = true ->
  findCalendars c calls =
  (Ret (inl (map (entryOf c)
               (filter supportsEvents (props.Multistatus_Responses multistatus)))),
   calls ++ [PropfindCall (Client_server (client_calendarClient c)) (client_path c)
               Depth1 findCalendarsRequestBody]).
Proof.
  intros Hreply Hr Hu. unfold findCalendars. go_unfold. rewrite Hreply.
  now rewrite (findCalendars_from_filter _ _ _ Hr Hu).
Qed.

(** Of the four collections of [sampleListing], the one of to-dos and
    journals and the one whose status is not a success are left out, the
    latter with its malformed reference unread. *)
Lemma findCalendars_keeps_event_calendars_witness :
  fst (@findCalendars sampleExternal (exampleClient true) []) =
  Ret (inl [workCalendar; homeCalendar]).
Proof.
  rewrite (findCalendars_keeps_event_calendars sampleExternal (exampleClient true) []
             {| props.Multistatus_Responses := sampleListing |});
    reflexivity.
Defined.

(** C6, as the claim words it (every response set), fails.  In
    [brokenListing] all three responses are successful calendars of events,
    and the second has a reference that cannot be unescaped: [findCalendars]
    returns that error and no entry.  On [unreadableListing], whose response
    has no property status, it panics. *)
Lemma findCalendars_every_response_set_counterexample :
  ~ (forall responses : list props.Response,
       fst (@findCalendars sampleExternal (listingClient responses) []) =
       Ret (inl (map (entryOf (listingClient responses))
                   (filter supportsEvents responses)))) /\
  (filter supportsEvents brokenListing = brokenListing /\
   fst (@findCalendars sampleExternal (listingClient brokenListing) []) =
     Ret (inr (EscapeError "%zz"))) /\
  fst (@findCalendars sampleExternal (listingClient unreadableListing) []) =
    Panic indexOutOfRange.
Proof.
  split; [|split; [split|]]; try reflexivity.
  intros H. specialize (H brokenListing). vm_compute in H. discriminate H.
Qed.

(** ** Event query *)

Section EventFacts.

Context {ext : External}.

Lemma appendCalendarItems_map (events : list components_Event) (cal : calendarListEntry) :
  forall calendarItems,
    appendCalendarItems events cal calendarItems =
    calendarItems ++ map (fun event => newCalendarItem event cal) events.
Proof.
  induction events as [|event rest IH]; intros calendarItems; cbn.
  - now rewrite app_nil_r.
  - rewrite IH, <- app_assoc. reflexivity.
Qed.

Lemma queried_app (a b : list Call) : queried (a ++ b) = queried a ++ queried b.
Proof.
  induction a as [|call a IH]; [reflexivity|].
  destruct call; cbn; now rewrite IH.
Qed.

Lemma AllAnswer_queried (c : client) query calendars calls answers calls' :
  AllAnswer c query calendars calls answers calls' ->
  exists added, calls' = calls ++ added /\ queried added = map cal_path calendars.
Proof.
  induction 1 as [calls|cal rest calls events calls1 answers calls2 Hq _ (added & -> & Ha)].
  - exists []. now rewrite app_nil_r.
  - unfold QueryEvents in Hq. inversion Hq; subst; clear Hq.
    eexists (_ :: added). rewrite <- app_assoc. split; [reflexivity|].
    cbn. now rewrite Ha.
Qed.

(** Past calendars that all answer, the loop goes on with the calendars
    left, their items appended calendar by calendar. *)
Lemma CalendarEvents_from_AllAnswer (c : client) query calendars calls answers calls' :
  AllAnswer c query calendars calls answers calls' ->
  forall rest calendarItems,
    CalendarEvents_from c query (calendars ++ rest) calendarItems calls =
    CalendarEvents_from c query rest (calendarItems ++ itemsOf calendars answers) calls'.
Proof.
  induction 1 as [calls|cal cals calls events calls1 answers calls2 Hq _ IH];
    intros rest calendarItems.
  - unfold itemsOf. cbn. now rewrite app_nil_r.
  - cbn [app CalendarEvents_from]. unfold bind at 1. rewrite Hq.
    rewrite IH, appendCalendarItems_map, <- app_assoc. reflexivity.
Qed.

End EventFacts.

(** C8: when the calendars before one answer and that one's event query
    fails, [CalendarEvents] returns that calendar's error and no event, also
    none of the events already received; the failing query is the last
    request made, so no later calendar is queried. *)
Theorem CalendarEvents_fails_fast (ext : External) (c : client)
  (startUTC endUTC : time.Time) (calls : list Call) query before cal after
  calls1 answers calls2 err :
  entities_NewEventRangeQuery startUTC endUTC = inl query ->
  findCalendars c calls = (Ret (inl (before ++ cal :: after)), calls1) ->
  AllAnswer c query before calls1 answers calls2 ->
  queryEventsReply (Client_http (client_calendarClient c)) calls2
    (Client_server (client_calendarClient c)) (cal_path cal) query = inr err ->
  CalendarEvents c startUTC endUTC calls =
  (Ret ([], Some err),
   calls2 ++ [QueryEventsCall (Client_server (client_calendarClient c)) (cal_path cal) query]) /\
  (exists added,
     calls2 ++ [QueryEventsCall (Client_server (client_calendarClient c)) (cal_path cal) query]
       = calls1 ++ added /\
     queried added = map cal_path before ++ [cal_path cal]).
Proof.
  intros Hq Hf Hall Herr. split.
  - unfold CalendarEvents. rewrite Hq. unfold bind at 1. rewrite Hf.
    rewrite (CalendarEvents_from_AllAnswer _ _ _ _ _ _ Hall).
    cbn [CalendarEvents_from]. unfold bind, QueryEvents, ret. now rewrite Herr.
  - destruct (AllAnswer_queried _ _ _ _ _ _ Hall) as (added & -> & Ha).
    eexists (added ++ [_]). rewrite <- app_assoc. split; [reflexivity|].
    rewrite queried_app, Ha. reflexivity.
Qed.

(** On [exampleServer false] the calendar [work] answers with two events and
    [home] fails: the call returns the error of [home] and no event. *)
Lemma CalendarEvents_fails_fast_witness :
  fst (@CalendarEvents sampleExternal (exampleClient false)
         (time.mkTime 0) (time.mkTime 1) []) =
  Ret ([], Some (LibraryError "503 Service Unavailable")).
Proof.
  pose proof (CalendarEvents_fails_fast sampleExternal (exampleClient false)
                (time.mkTime 0) (time.mkTime 1) [] (time.mkTime 0, time.mkTime 1)
                [workCalendar] homeCalendar []) as H.
  edestruct H as [E _].
  - reflexivity.
  - reflexivity.
  - econstructor; [reflexivity | constructor].
  - reflexivity.
  - rewrite E. reflexivity.
Defined.

(** C9: when the enumeration succeeds and every calendar's event query
    answers, [CalendarEvents] returns, with no error, the items of the
    calendars' events calendar by calendar in the order of the enumeration,
    and within a calendar in the order of the server's answer; one query is
    made per calendar, in that order. *)
Theorem CalendarEvents_concatenates_in_order (ext : External) (c : client)
  (startUTC endUTC : time.Time) (calls : list Call) query calendars
  calls1 answers calls2 :
  entities_NewEventRangeQuery startUTC endUTC = inl query ->
  findCalendars c calls = (Ret (inl calendars), calls1) ->
  AllAnswer c query calendars calls1 answers calls2 ->
  CalendarEvents c startUTC endUTC calls = (Ret (itemsOf calendars answers, None), calls2) /\
  (exists added, calls2 = calls1 ++ added /\ queried added = map cal_path calendars).
Proof.
  intros Hq Hf Hall. split.
  - unfold CalendarEvents. rewrite Hq. unfold bind at 1. rewrite Hf.
    rewrite <- (app_nil_r calendars) at 1.
    rewrite (CalendarEvents_from_AllAnswer _ _ _ _ _ _ Hall). reflexivity.
  - exact (AllAnswer_queried _ _ _ _ _ _ Hall).
Qed.

(** On [exampleServer true] the items are those of [work], then those of
    [home]; their start times, in the order returned, are not sorted. *)
Lemma CalendarEvents_concatenates_in_order_witness :
  fst (@CalendarEvents sampleExternal (exampleClient true)
         (time.mkTime 0) (time.mkTime 1) []) =
  Ret (map (fun event => newCalendarItem event workCalendar) workEvents ++
       map (fun event => newCalendarItem event homeCalendar) homeEvents, None) /\
  map Start (itemsOf [workCalendar; homeCalendar] [workEvents; homeEvents]) =
  [Ret (time.mkTime 63000000000000000000); Ret (time.mkTime 62000000000000000000);
   Ret (time.mkTime 62500000000000000000)].
Proof.
  pose proof (CalendarEvents_concatenates_in_order sampleExternal (exampleClient true)
                (time.mkTime 0) (time.mkTime 1) [] (time.mkTime 0, time.mkTime 1)
                [workCalendar; homeCalendar]) as H.
  edestruct H as [E _].
  - reflexivity.
  - reflexivity.
  - repeat (econstructor; [reflexivity|]). constructor.
  - rewrite E. split; reflexivity.
Defined.


(* ------------------------------------------------------------------ *)
(** ** Discovery: the two queries of [findCalendarHomeSet] *)

(** X1: an error of [findCalendarHomeSet] is the transport error of its
    first query, the unescape error of the principal reference, or the
    transport error of its second query, each returned unchanged; in the
    first two cases one request was made, in the third two. *)
Theorem findCalendarHomeSet_error_sources (ext : External) (client : caldav_Client) (path : string)
  (calls calls' : list Call) (err : error) :
  findCalendarHomeSet client path calls = (Ret (inr err), calls') ->
  let first :=
    PropfindCall (Client_server client) path Depth0 findCurrentUserPrincipalRequestBody in
  (propfindReply (Client_http client) calls (Client_server client) path Depth0
     findCurrentUserPrincipalRequestBody = inr err /\ calls' = calls ++ [first]) \/
  (exists multistatus prop principal,
     propfindReply (Client_http client) calls (Client_server client) path Depth0
       findCurrentUserPrincipalRequestBody = inl multistatus /\
     firstProp multistatus = Ret prop /\
     props.Prop_CurrentUserPrincipal prop = Some principal /\
     ((url.QueryUnescape (props.CurrentUserPrincipal_Href principal) = inr err /\
       calls' = calls ++ [first]) \/
      (exists principalPath,
         url.QueryUnescape (props.CurrentUserPrincipal_Href principal) = inl principalPath /\
         propfindReply (Client_http client) (calls ++ [first]) (Client_server client)
           principalPath Depth0 findCalendarHomeSetRequestBody = inr err /\
         calls' = calls ++ [first;
                    PropfindCall (Client_server client) principalPath Depth0
                      findCalendarHomeSetRequestBody]))).
Proof.
  intros H first. subst first. unfold findCalendarHomeSet in H. go_unfold.
  destruct (propfindReply (Client_http client) calls (Client_server client) path Depth0
              findCurrentUserPrincipalRequestBody) as [ms|e] eqn:R1.
  - destruct (firstProp ms) as [prop|m] eqn:F1; [|discriminate].
    destruct (props.Prop_CurrentUserPrincipal prop) as [principal|] eqn:P1;
      cbn [deref] in H; [|discriminate].
    right. exists ms, prop, principal. repeat split; try assumption.
    destruct (url.QueryUnescape (props.CurrentUserPrincipal_Href principal)) as [p|e] eqn:U.
    + right. exists p. split; [reflexivity|].
      destruct (propfindReply (Client_http client) _ (Client_server client) p Depth0
                  findCalendarHomeSetRequestBody) as [ms2|e2] eqn:R2.
      * destruct (firstProp ms2); discriminate.
      * inversion H; subst. split; [reflexivity|]. now rewrite <- app_assoc.
    + inversion H; subst. left. now split.
  - inversion H; subst. left. now split.
Qed.

Lemma findCalendarHomeSet_error_sources_witness :
  exists calls',
    @findCalendarHomeSet sampleExternal
      (candidateClient "cal.example.org" failingServer) "/caldav" [] =
      (Ret (inr (LibraryError "/caldav")), calls') /\
    calls' = [PropfindCall "https://cal.example.org" "/caldav" Depth0
                findCurrentUserPrincipalRequestBody].
Proof.
  eexists. split; [reflexivity|].
  destruct (findCalendarHomeSet_error_sources sampleExternal
              (candidateClient "cal.example.org" failingServer) "/caldav" [] _
              (LibraryError "/caldav") eq_refl)
    as [[_ E]|(ms & prop & principal & H & _)].
  - exact E.
  - discriminate H.
Defined.

(** X2: when [findCalendarHomeSet] succeeds it has made exactly two
    requests: the first at the candidate path, the second at the unescaped
    reference of the principal that the first answer names; what it returns
    is the calendar home set of the second answer, nil when that answer
    carries none. *)
Theorem findCalendarHomeSet_success_path (ext : External) (client : caldav_Client) (path : string)
  (calls calls' : list Call) (homeSet : option props.CalendarHomeSet) :
  findCalendarHomeSet client path calls = (Ret (inl homeSet), calls') ->
  exists multistatus prop principal principalPath multistatus' prop',
    propfindReply (Client_http client) calls (Client_server client) path Depth0
      findCurrentUserPrincipalRequestBody = inl multistatus /\
    firstProp multistatus = Ret prop /\
    props.Prop_CurrentUserPrincipal prop = Some principal /\
    url.QueryUnescape (props.CurrentUserPrincipal_Href principal) = inl principalPath /\
    propfindReply (Client_http client)
      (calls ++ [PropfindCall (Client_server client) path Depth0
                   findCurrentUserPrincipalRequestBody])
      (Client_server client) principalPath Depth0 findCalendarHomeSetRequestBody
      = inl multistatus' /\
    firstProp multistatus' = Ret prop' /\
    homeSet = props.Prop_CalendarHomeSet prop' /\
    calls' = calls ++ [PropfindCall (Client_server client) path Depth0
                         findCurrentUserPrincipalRequestBody;
                       PropfindCall (Client_server client) principalPath Depth0
                         findCalendarHomeSetRequestBody].
Proof.
  intros H. unfold findCalendarHomeSet in H. go_unfold.
  destruct (propfindReply (Client_http client) calls (Client_server client) path Depth0
              findCurrentUserPrincipalRequestBody) as [ms|e] eqn:R1; [|discriminate].
  destruct (firstProp ms) as [prop|m] eqn:F1; [|discriminate].
  destruct (props.Prop_CurrentUserPrincipal prop) as [principal|] eqn:P1;
    cbn [deref] in H; [|discriminate].
  destruct (url.QueryUnescape (props.CurrentUserPrincipal_Href principal)) as [p|e] eqn:U;
    [|discriminate].
  destruct (propfindReply (Client_http client) _ (Client_server client) p Depth0
              findCalendarHomeSetRequestBody) as [ms2|e2] eqn:R2; [|discriminate].
  destruct (firstProp ms2) as [prop2|m] eqn:F2; [|discriminate].
  inversion H; subst.
  exists ms, prop, principal, p, ms2, prop2.
  rewrite <- app_assoc. repeat split; assumption.
Qed.

Lemma findCalendarHomeSet_success_path_witness :
  exists homeSet calls' principalPath,
    @findCalendarHomeSet sampleExternal
      (candidateClient "cal.example.org" (exampleServer true)) "/caldav/st" [] =
      (Ret (inl homeSet), calls') /\
    url.QueryUnescape "/principals/ann%40example.org/" = inl principalPath /\
    calls' = [PropfindCall "https://cal.example.org" "/caldav/st" Depth0
                findCurrentUserPrincipalRequestBody;
              PropfindCall "https://cal.example.org" principalPath Depth0
                findCalendarHomeSetRequestBody].
Proof.
  eexists. eexists. eexists. split; [reflexivity|].
  destruct (findCalendarHomeSet_success_path sampleExternal
              (candidateClient "cal.example.org" (exampleServer true)) "/caldav/st" [] _ _
              eq_refl)
    as (ms & prop & principal & p & ms' & prop' & H1 & H2 & H3 & H4 & _ & _ & _ & E).
  cbn in H1. injection H1 as <-. cbn in H2. injection H2 as <-.
  cbn in H3. injection H3 as <-.
  split; [reflexivity|]. cbn in H4. injection H4 as <-. exact E.
Defined.


(* ------------------------------------------------------------------ *)
(** ** Discovery: the requests of [discoverServer] and the result of [NewClient] *)

Section DiscoveryRequests.

Context {ext : External}.

Lemma findCalendarHomeSet_requests (client : caldav_Client) (path : string)
  (calls calls' : list Call) o :
  findCalendarHomeSet client path calls = (o, calls') ->
  exists added,
    calls' = calls ++ added /\ (List.length added <= 2)%nat /\
    forallb (isDepth0PropfindTo (Client_server client)) added = true.
Proof.
  unfold findCalendarHomeSet. go_unfold. intros H.
  repeat go_split; inversion H; subst; clear H;
    first [ exists [PropfindCall (Client_server client) path Depth0
                      findCurrentUserPrincipalRequestBody];
            split; [reflexivity|]; split; [cbn; lia|];
            cbn; now rewrite String.eqb_refl
          | eexists [PropfindCall (Client_server client) path Depth0
                       findCurrentUserPrincipalRequestBody;
                     PropfindCall (Client_server client) _ Depth0
                       findCalendarHomeSetRequestBody];
            split; [rewrite <- app_assoc; reflexivity|]; split; [cbn; lia|];
            cbn; now rewrite String.eqb_refl ].
Qed.

Lemma discoverServer_from_requests (host : string) (httpClient : http_Client)
  (candidates : list string) :
  forall acc calls o calls',
    discoverServer_from host httpClient candidates acc calls = (o, calls') ->
    exists added,
      calls' = calls ++ added /\
      (List.length added <= 2 * List.length candidates)%nat /\
      forallb (isDepth0PropfindTo (String.append "https://" host)) added = true.
Proof.
  induction candidates as [|path rest IH]; intros acc calls o calls' H.
  - cbn in H. unfold ret in H. inversion H; subst.
    exists []. rewrite app_nil_r. repeat split. cbn. lia.
  - cbn [discoverServer_from] in H. unfold bind at 1 in H.
    destruct (findCalendarHomeSet (candidateClient host httpClient) path calls)
      as [r calls1] eqn:Hf.
    destruct (findCalendarHomeSet_requests _ _ _ _ _ Hf) as (added1 & -> & Hl1 & Ha1).
    cbn [candidateClient Client_server] in Ha1.
    destruct r as [[hs|err]|msg].
    + unfold ret in H. inversion H; subst.
      exists added1. repeat split; [cbn [List.length]; lia | exact Ha1].
    + apply IH in H as (added & -> & Hl & Ha).
      exists (added1 ++ added). rewrite app_assoc. repeat split.
      * rewrite length_app. cbn [List.length]. lia.
      * rewrite forallb_app, Ha1, Ha. reflexivity.
    + inversion H; subst.
      exists added1. repeat split; [cbn [List.length]; lia | exact Ha1].
Qed.

(** A client that discovery returns is the candidate client of the host. *)
Lemma discoverServer_client (host : string) (httpClient : http_Client)
  (calls calls' : list Call) calendarClient homeSet :
  discoverServer host httpClient calls = (Ret (inl (calendarClient, homeSet)), calls') ->
  calendarClient = candidateClient host httpClient.
Proof.
  unfold discoverServer. generalize (@nil error). revert calls.
  induction paths as [|path rest IH]; intros calls0 acc Hd.
  - discriminate.
  - cbn [discoverServer_from] in Hd. unfold bind at 1 in Hd.
    destruct (findCalendarHomeSet (candidateClient host httpClient) path calls0)
      as [[[hs|err]|msg] calls2]; [|now apply IH in Hd|discriminate].
    unfold ret in Hd. now inversion Hd.
Qed.

End DiscoveryRequests.

(** X3: whatever discovery comes to, it makes at most two requests per
    candidate (eight in all), every one a zero-depth property query to
    [https://host]; it never lists a collection or queries events. *)
Theorem discoverServer_requests_bounded (ext : External)
  (host : string) (httpClient : http_Client) (calls : list Call) :
  exists added,
    snd (discoverServer host httpClient calls) = calls ++ added /\
    (List.length added <= 8)%nat /\
    forallb (isDepth0PropfindTo (String.append "https://" host)) added = true /\
    queried added = [].
Proof.
  destruct (discoverServer host httpClient calls) as [o calls'] eqn:H.
  unfold discoverServer in H.
  apply discoverServer_from_requests in H as (added & -> & Hl & Ha).
  exists added. repeat split; [exact Hl | exact Ha |].
  clear Hl. induction added as [|call added IH]; [reflexivity|].
  cbn [forallb] in Ha. apply andb_prop in Ha as [Hc Ha].
  destruct call as [s p [|] b|s p q]; cbn in Hc; try discriminate.
  cbn. now apply IH.
Qed.

(** X4: a client that [NewClient] returns carries the user name as its email
    address, talks to [https://host], and is bound to the unescaped reference
    of the calendar home set that discovery returned; [NewClient] makes no
    request beyond those of discovery. *)
Theorem NewClient_result_shape (ext : External)
  (host username password : string) (httpClient : http_Client)
  (calls calls' : list Call) (c : client) :
  NewClient host username password httpClient calls = (Ret (inl c), calls') ->
  client_emailAddress c = username /\
  client_calendarClient c = candidateClient host httpClient /\
  exists homeSet,
    discoverServer host httpClient calls =
      (Ret (inl (candidateClient host httpClient, Some homeSet)), calls') /\
    url.QueryUnescape (props.CalendarHomeSet_Href homeSet) = inl (client_path c).
Proof.
  intros H. unfold NewClient, bind at 1 in H.
  destruct (discoverServer host httpClient calls) as [o calls1] eqn:Hd.
  destruct o as [[[cc hs]|err]|msg]; [|discriminate|discriminate].
  unfold bind, lift, deref, ret in H.
  destruct hs as [homeSet|]; [|discriminate].
  destruct (url.QueryUnescape (props.CalendarHomeSet_Href homeSet)) as [p|e] eqn:U;
    [|discriminate].
  inversion H; subst; clear H. cbn.
  assert (cc = candidateClient host httpClient) as ->
    by exact (discoverServer_client _ _ _ _ _ _ Hd).
  repeat split. exists homeSet. now split.
Qed.

Lemma NewClient_result_shape_witness :
  exists calls' c,
    @NewClient sampleExternal "cal.example.org" "ann@example.org" "secret"
      (exampleServer true) [] = (Ret (inl c), calls') /\
    client_emailAddress c = "ann@example.org"%string /\
    client_calendarClient c = candidateClient "cal.example.org" (exampleServer true).
Proof.
  eexists. eexists.
  assert (H : @NewClient sampleExternal "cal.example.org" "ann@example.org" "secret"
                (exampleServer true) [] =
              (Ret (inl (exampleClient true)),
               snd (@NewClient sampleExternal "cal.example.org" "ann@example.org" "secret"
                      (exampleServer true) []))) by reflexivity.
  split; [exact H|].
  destruct (NewClient_result_shape sampleExternal _ _ _ _ _ _ _ H) as (He & Hc & _).
  split; assumption.
Defined.

(** X5: an error that [NewClient] returns is either the aggregate error
    [WF11301] of discovery, when every candidate failed, or the unescape
    error of the reference of the calendar home set that discovery returned;
    in both cases no request is made beyond those of discovery. *)
Theorem NewClient_error_sources (ext : External)
  (host username password : string) (httpClient : http_Client)
  (calls calls' : list Call) (err : error) :
  NewClient host username password httpClient calls = (Ret (inr err), calls') ->
  (exists errs,
     AllFail host httpClient paths calls errs calls' /\
     List.length errs = List.length paths /\
     err = errors.WF11301 errs) \/
  (exists homeSet,
     discoverServer host httpClient calls =
       (Ret (inl (candidateClient host httpClient, Some homeSet)), calls') /\
     url.QueryUnescape (props.CalendarHomeSet_Href homeSet) = inr err).
Proof.
  intros H. unfold NewClient, bind at 1 in H.
  destruct (discoverServer host httpClient calls) as [o calls1] eqn:Hd.
  destruct o as [[[cc hs]|e]|msg]; [| |discriminate].
  - unfold bind, lift, deref, ret in H.
    destruct hs as [homeSet|]; [|discriminate].
    destruct (url.QueryUnescape (props.CalendarHomeSet_Href homeSet)) as [p|e] eqn:U;
      [discriminate|].
    inversion H; subst; clear H. right. exists homeSet.
    rewrite (discoverServer_client _ _ _ _ _ _ Hd). now split.
  - inversion H; subst; clear H. left.
    unfold discoverServer in Hd.
    apply discoverServer_from_error in Hd as (errs & Hall & ->).
    exists errs. split; [exact Hall|]. split; [|reflexivity].
    exact (AllFail_length _ _ _ _ _ _ Hall).
Qed.

Lemma NewClient_error_sources_witness :
  exists calls' homeSet,
    @NewClient sampleExternal "cal.example.org" "ann@example.org" "secret"
      serverWithBadHomeSet [] = (Ret (inr (EscapeError "%zz")), calls') /\
    url.QueryUnescape (props.CalendarHomeSet_Href homeSet) = inr (EscapeError "%zz").
Proof.
  destruct (NewClient_error_sources sampleExternal "cal.example.org" "ann@example.org"
              "secret" serverWithBadHomeSet [] _ (EscapeError "%zz") eq_refl)
    as [(errs & _ & _ & E)|(homeSet & _ & U)].
  - discriminate E.
  - eexists. exists homeSet. split; [reflexivity | exact U].
Defined.


(* ------------------------------------------------------------------ *)
(** ** Enumeration: when [findCalendars] returns and what its errors are *)

Section EnumerationCases.

Context {ext : External}.

Lemma findCalendars_from_unreadable (c : client) response rest calendars :
  readable response = false ->
  exists msg, findCalendars_from c (response :: rest) calendars = Panic msg.
Proof.
  unfold readable. cbn [findCalendars_from].
  destruct (props.Response_PropStats response) as [|propertyStatus more].
  - intros _. eexists. reflexivity.
  - cbn [first obind].
    destruct (String.eqb (props.PropStat_Status propertyStatus) httpOK); [|discriminate].
    destruct (props.PropStat_Prop propertyStatus) as [prop|]; [discriminate|].
    intros _. eexists. reflexivity.
Qed.

(** What a run of the outer loop comes to, read off the responses. *)
Lemma findCalendars_from_cases (c : client) (responses : list props.Response) :
  forall calendars,
    match findCalendars_from c responses calendars with
    | Ret (inl l) =>
        forallb readable responses = true /\
        forallb unescapable (filter supportsEvents responses) = true /\
        l = calendars ++ map (entryOf c) (filter supportsEvents responses)
    | Ret (inr err) =>
        exists before response after,
          responses = before ++ response :: after /\
          forallb readable before = true /\
          forallb unescapable (filter supportsEvents before) = true /\
          readable response = true /\
          supportsEvents response = true /\
          url.QueryUnescape (props.Response_Href response) = inr err
    | Panic _ =>
        exists before response after,
          responses = before ++ response :: after /\
          forallb readable before = true /\
          forallb unescapable (filter supportsEvents before) = true /\
          readable response = false
    end.
Proof.
  induction responses as [|response rest IH]; intros calendars.
  - cbn. now rewrite app_nil_r.
  - destruct (readable response) eqn:Hr.
    2:{ destruct (findCalendars_from_unreadable c response rest calendars Hr) as [msg ->].
        exists [], response, rest. now repeat split. }
    destruct (supportsEvents response) eqn:Hs.
    + destruct (url.QueryUnescape (props.Response_Href response)) as [path|err] eqn:Hu.
      * assert (Hu' : unescapable response = true) by (unfold unescapable; now rewrite Hu).
        rewrite (findCalendars_from_keep _ _ _ _ Hs Hu').
        specialize (IH (calendars ++ [entryOf c response])).
        destruct (findCalendars_from c rest (calendars ++ [entryOf c response]))
          as [[l|e]|msg].
        -- destruct IH as (H1 & H2 & ->). cbn [forallb filter]. rewrite Hr, Hs.
           cbn [forallb map]. rewrite Hu', H1, H2, <- app_assoc. now repeat split.
        -- destruct IH as (before & r & after & -> & H1 & H2 & H3 & H4 & H5).
           exists (response :: before), r, after. cbn [forallb filter app].
           rewrite Hr, Hs. cbn [forallb]. rewrite Hu', H1, H2. now repeat split.
        -- destruct IH as (before & r & after & -> & H1 & H2 & H3).
           exists (response :: before), r, after. cbn [forallb filter app].
           rewrite Hr, Hs. cbn [forallb]. rewrite Hu', H1, H2. now repeat split.
      * pose proof (findCalendars_from_unescape_error c [] response rest calendars err
                      eq_refl eq_refl Hs Hu) as He.
        cbn [app] in He. rewrite He.
        exists [], response, rest. now repeat split.
    + rewrite (findCalendars_from_skip _ _ _ _ Hr Hs).
      specialize (IH calendars).
      destruct (findCalendars_from c rest calendars) as [[l|e]|msg].
      * destruct IH as (H1 & H2 & ->). cbn [forallb filter]. rewrite Hr, Hs, H1.
        now repeat split.
      * destruct IH as (before & r & after & -> & H1 & H2 & H3 & H4 & H5).
        exists (response :: before), r, after. cbn [forallb filter app].
        rewrite Hr, Hs, H1. now repeat split.
      * destruct IH as (before & r & after & -> & H1 & H2 & H3).
        exists (response :: before), r, after. cbn [forallb filter app].
        rewrite Hr, Hs, H1. now repeat split.
Qed.

(** [findCalendars] makes its one request whatever it comes to. *)
Lemma findCalendars_calls (c : client) (calls : list Call) :
  snd (findCalendars c calls) =
    calls ++ [PropfindCall (Client_server (client_calendarClient c)) (client_path c)
                Depth1 findCalendarsRequestBody].
Proof.
  unfold findCalendars. go_unfold.
  destruct (propfindReply _ _ _ _ _ _); reflexivity.
Qed.

End EnumerationCases.

(** X6: [findCalendars] makes exactly one request whatever it comes to, the
    depth-1 property query at the client's path, and returns a transport
    error of that request unchanged. *)
Theorem findCalendars_one_request (ext : External) (c : client) (calls : list Call) :
  snd (findCalendars c calls) =
    calls ++ [PropfindCall (Client_server (client_calendarClient c)) (client_path c)
                Depth1 findCalendarsRequestBody] /\
  (forall err,
     propfindReply (Client_http (client_calendarClient c)) calls
       (Client_server (client_calendarClient c)) (client_path c) Depth1
       findCalendarsRequestBody = inr err ->
     fst (findCalendars c calls) = Ret (inr err)).
Proof.
  split.
  - apply findCalendars_calls.
  - unfold findCalendars. go_unfold. intros err ->. reflexivity.
Qed.

(** X7: [findCalendars] returns a list of entries exactly when the property
    query answers, every response is readable and every kept response's
    reference can be unescaped; the list is then the kept responses'
    entries in response order, one entry per response however often the
    event type is listed. *)
Theorem findCalendars_returns_iff (ext : External) (c : client) (calls : list Call)
  (l : list calendarListEntry) :
  fst (findCalendars c calls) = Ret (inl l) <->
  exists multistatus,
    propfindReply (Client_http (client_calendarClient c)) calls
      (Client_server (client_calendarClient c)) (client_path c) Depth1
      findCalendarsRequestBody = inl multistatus /\
    forallb readable (props.Multistatus_Responses multistatus) = true /\
    forallb unescapable
      (filter supportsEvents (props.Multistatus_Responses multistatus)) = true /\
    l = map (entryOf c) (filter supportsEvents (props.Multistatus_Responses multistatus)).
Proof.
  unfold findCalendars. go_unfold.
  destruct (propfindReply (Client_http (client_calendarClient c)) calls
              (Client_server (client_calendarClient c)) (client_path c) Depth1
              findCalendarsRequestBody) as [ms|err].
  - cbn [fst].
    pose proof (findCalendars_from_cases c (props.Multistatus_Responses ms) []) as Hc.
    split.
    + intros H. rewrite H in Hc. exists ms. destruct Hc as (H1 & H2 & H3).
      now repeat split.
    + intros (ms' & [= <-] & H1 & H2 & ->).
      now rewrite (findCalendars_from_filter _ _ _ H1 H2).
  - cbn. split; [discriminate | intros (ms & H & _); discriminate].
Qed.

(** X8: an error of [findCalendars] is the transport error of its request or
    the unescape error of the first kept response whose reference is
    malformed; nothing else makes it return an error. *)
Theorem findCalendars_error_sources (ext : External) (c : client) (calls : list Call)
  (err : error) :
  fst (findCalendars c calls) = Ret (inr err) ->
  propfindReply (Client_http (client_calendarClient c)) calls
    (Client_server (client_calendarClient c)) (client_path c) Depth1
    findCalendarsRequestBody = inr err \/
  exists multistatus before response after,
    propfindReply (Client_http (client_calendarClient c)) calls
      (Client_server (client_calendarClient c)) (client_path c) Depth1
      findCalendarsRequestBody = inl multistatus /\
    props.Multistatus_Responses multistatus = before ++ response :: after /\
    forallb unescapable (filter supportsEvents before) = true /\
    supportsEvents response = true /\
    url.QueryUnescape (props.Response_Href response) = inr err.
Proof.
  unfold findCalendars. go_unfold.
  destruct (propfindReply (Client_http (client_calendarClient c)) calls
              (Client_server (client_calendarClient c)) (client_path c) Depth1
              findCalendarsRequestBody) as [ms|e].
  - cbn [fst]. intros H.
    pose proof (findCalendars_from_cases c (props.Multistatus_Responses ms) []) as Hc.
    rewrite H in Hc. destruct Hc as (before & r & after & E & _ & H2 & _ & H4 & H5).
    right. exists ms, before, r, after. now repeat split.
  - cbn. intros [= ->]. now left.
Qed.

Lemma findCalendars_error_sources_witness :
  fst (@findCalendars sampleExternal (listingClient brokenListing) []) =
    Ret (inr (EscapeError "%zz")) /\
  (exists before response after,
     brokenListing = before ++ response :: after /\
     supportsEvents response = true /\
     url.QueryUnescape (props.Response_Href response) = inr (EscapeError "%zz")).
Proof.
  assert (H : fst (@findCalendars sampleExternal (listingClient brokenListing) []) =
              Ret (inr (EscapeError "%zz"))) by reflexivity.
  split; [exact H|].
  destruct (findCalendars_error_sources sampleExternal _ _ _ H)
    as [Hbad|(ms & before & response & after & Hm & Hl & _ & Hs & Hu)].
  - discriminate Hbad.
  - injection Hm as <-. exists before, response, after. now repeat split.
Defined.


(* ------------------------------------------------------------------ *)
(** ** Events: the early exits of [CalendarEvents] *)

Section EventCases.

Context {ext : External}.

(** What a run of the loop over the calendars comes to; it never panics. *)
Lemma CalendarEvents_from_cases (c : client) query (calendars : list calendarListEntry) :
  forall calendarItems calls,
    match CalendarEvents_from c query calendars calendarItems calls with
    | (Ret (l, None), calls') =>
        exists answers,
          AllAnswer c query calendars calls answers calls' /\
          l = calendarItems ++ itemsOf calendars answers
    | (Ret (l, Some err), calls') =>
        l = [] /\
        exists before cal after answers calls2,
          calendars = before ++ cal :: after /\
          AllAnswer c query before calls answers calls2 /\
          queryEventsReply (Client_http (client_calendarClient c)) calls2
            (Client_server (client_calendarClient c)) (cal_path cal) query = inr err /\
          calls' = calls2 ++ [QueryEventsCall (Client_server (client_calendarClient c))
                                (cal_path cal) query]
    | (Panic _, _) => False
    end.
Proof.
  induction calendars as [|cal rest IH]; intros calendarItems calls.
  - cbn. exists []. split; [constructor|]. unfold itemsOf. cbn. now rewrite app_nil_r.
  - cbn [CalendarEvents_from]. unfold bind at 1. unfold QueryEvents at 1.
    destruct (queryEventsReply (Client_http (client_calendarClient c)) calls
                (Client_server (client_calendarClient c)) (cal_path cal) query)
      as [events|err] eqn:Hq.
    + assert (Hstep : QueryEvents (client_calendarClient c) (cal_path cal) query calls =
                      (Ret (inl events),
                       calls ++ [QueryEventsCall (Client_server (client_calendarClient c))
                                   (cal_path cal) query])).
      { unfold QueryEvents. now rewrite Hq. }
      specialize (IH (appendCalendarItems events cal calendarItems)
                     (calls ++ [QueryEventsCall (Client_server (client_calendarClient c))
                                  (cal_path cal) query])).
      destruct (CalendarEvents_from c query rest _ _) as [[[l [err|]]|msg] calls'].
      * destruct IH as (-> & before & cal' & after & answers & calls2 & -> & Hall & Hr & ->).
        split; [reflexivity|].
        exists (cal :: before), cal', after, (events :: answers), calls2.
        repeat split; try assumption. econstructor; eassumption.
      * destruct IH as (answers & Hall & ->).
        exists (events :: answers). split; [econstructor; eassumption|].
        rewrite appendCalendarItems_map, <- app_assoc. reflexivity.
      * exact IH.
    + unfold ret. split; [reflexivity|].
      exists [], cal, rest, [], calls. repeat split; [constructor | exact Hq].
Qed.

Lemma AllAnswer_lengths (c : client) query calendars calls answers calls' :
  AllAnswer c query calendars calls answers calls' ->
  List.length answers = List.length calendars.
Proof. induction 1; cbn; congruence. Qed.

End EventCases.

(** X9: when the range query cannot be built, [CalendarEvents] returns that
    error and no event without making a request; when the enumeration fails,
    it returns the enumeration's error and no event, and no event query is
    made. *)
Theorem CalendarEvents_early_errors (ext : External) (c : client)
  (startUTC endUTC : time.Time) (calls : list Call) :
  (forall err,
     entities_NewEventRangeQuery startUTC endUTC = inr err ->
     CalendarEvents c startUTC endUTC calls = (Ret ([], Some err), calls)) /\
  (forall query err calls1,
     entities_NewEventRangeQuery startUTC endUTC = inl query ->
     findCalendars c calls = (Ret (inr err), calls1) ->
     CalendarEvents c startUTC endUTC calls = (Ret ([], Some err), calls1) /\
     exists added, calls1 = calls ++ added /\ queried added = []).
Proof.
  split.
  - intros err Hq. unfold CalendarEvents. now rewrite Hq.
  - intros query err calls1 Hq Hf. split.
    + unfold CalendarEvents. rewrite Hq. unfold bind. now rewrite Hf.
    + pose proof (findCalendars_calls c calls) as Hs.
      rewrite Hf in Hs. cbn [snd] in Hs. eexists. split; [exact Hs | reflexivity].
Qed.

Lemma CalendarEvents_early_errors_witness :
  @CalendarEvents checkingExternal silentClient (time.mkTime 10) (time.mkTime 5) [] =
    (Ret ([], Some (LibraryError "end before start")), []) /\
  fst (@CalendarEvents checkingExternal silentClient (time.mkTime 5) (time.mkTime 10) []) =
    Ret ([], Some (LibraryError "/calendars/ann@example.org/")).
Proof.
  pose proof (CalendarEvents_early_errors checkingExternal silentClient) as H.
  split.
  - apply (proj1 (H (time.mkTime 10) (time.mkTime 5) [])). reflexivity.
  - destruct (proj2 (H (time.mkTime 5) (time.mkTime 10) [])
                (time.mkTime 5, time.mkTime 10)
                (LibraryError "/calendars/ann@example.org/")
                (snd (@findCalendars checkingExternal silentClient [])))
      as [E _]; [reflexivity | reflexivity |].
    now rewrite E.
Defined.

(** X10: when the enumeration finds no calendar of events, [CalendarEvents]
    returns no event and no error, and makes no event query. *)
Theorem CalendarEvents_no_calendar (ext : External) (c : client)
  (startUTC endUTC : time.Time) (calls calls1 : list Call) query :
  entities_NewEventRangeQuery startUTC endUTC = inl query ->
  findCalendars c calls = (Ret (inl []), calls1) ->
  CalendarEvents c startUTC endUTC calls = (Ret ([], None), calls1) /\
  queried calls1 = queried calls.
Proof.
  intros Hq Hf. split.
  - unfold CalendarEvents. rewrite Hq. unfold bind. now rewrite Hf.
  - pose proof (findCalendars_calls c calls) as Hs.
    rewrite Hf in Hs. cbn [snd] in Hs. rewrite Hs, queried_app. cbn. now rewrite app_nil_r.
Qed.

Lemma CalendarEvents_no_calendar_witness :
  fst (@CalendarEvents sampleExternal (listingClient tasksListing)
         (time.mkTime 0) (time.mkTime 1) []) = Ret ([], None).
Proof.
  destruct (CalendarEvents_no_calendar sampleExternal (listingClient tasksListing)
              (time.mkTime 0) (time.mkTime 1) []
              (snd (@findCalendars sampleExternal (listingClient tasksListing) []))
              (time.mkTime 0, time.mkTime 1)) as [E _];
    [reflexivity | reflexivity |].
  now rewrite E.
Defined.

(** X11: [CalendarEvents] returns without an error only when the range query
    was built, the enumeration succeeded and every enumerated calendar
    answered; what it returns is then the calendars' items in order. *)
Theorem CalendarEvents_success_only_if_all_answer (ext : External) (c : client)
  (startUTC endUTC : time.Time) (calls calls' : list Call) (items : list calendarItem) :
  CalendarEvents c startUTC endUTC calls = (Ret (items, None), calls') ->
  exists query calendars calls1 answers,
    entities_NewEventRangeQuery startUTC endUTC = inl query /\
    findCalendars c calls = (Ret (inl calendars), calls1) /\
    AllAnswer c query calendars calls1 answers calls' /\
    items = itemsOf calendars answers.
Proof.
  unfold CalendarEvents.
  destruct (entities_NewEventRangeQuery startUTC endUTC) as [query|err] eqn:Hq;
    [|discriminate].
  unfold bind at 1.
  destruct (findCalendars c calls) as [[[calendars|err]|msg] calls1] eqn:Hf;
    [|discriminate|discriminate].
  intros H. pose proof (CalendarEvents_from_cases c query calendars [] calls1) as Hc.
  rewrite H in Hc. destruct Hc as (answers & Hall & ->).
  exists query, calendars, calls1, answers. now repeat split.
Qed.

Lemma CalendarEvents_success_only_if_all_answer_witness :
  exists query calendars calls1 answers,
    @entities_NewEventRangeQuery sampleExternal (time.mkTime 0) (time.mkTime 1) = inl query /\
    findCalendars (exampleClient true) [] = (Ret (inl calendars), calls1) /\
    AllAnswer (exampleClient true) query calendars calls1 answers
      (snd (@CalendarEvents sampleExternal (exampleClient true)
              (time.mkTime 0) (time.mkTime 1) [])) /\
    itemsOf [workCalendar; homeCalendar] [workEvents; homeEvents] =
      itemsOf calendars answers.
Proof.
  apply (CalendarEvents_success_only_if_all_answer sampleExternal (exampleClient true)
           (time.mkTime 0) (time.mkTime 1) []).
  reflexivity.
Defined.


(* ------------------------------------------------------------------ *)
(** ** Events: the errors and the items of [CalendarEvents] *)

Section ItemFacts.

Context {ext : External}.

Lemma itemsOf_cons (cal : calendarListEntry) calendars
  (events : list components_Event) answers :
  itemsOf (cal :: calendars) (events :: answers) =
  map (fun event => newCalendarItem event cal) events ++ itemsOf calendars answers.
Proof. reflexivity. Qed.

Lemma itemsOf_UID (c : client) query calendars calls answers calls' :
  AllAnswer c query calendars calls answers calls' ->
  map UID (itemsOf calendars answers) = List.concat (map (map Event_UID) answers).
Proof.
  induction 1 as [|cal rest calls events calls1 answers calls2 _ _ IH]; [reflexivity|].
  rewrite itemsOf_cons, map_app, IH, map_map. reflexivity.
Qed.

Lemma itemsOf_calendar (calendars : list calendarListEntry) :
  forall answers,
    Forall (fun item => In (calendar item) calendars) (itemsOf calendars answers).
Proof.
  induction calendars as [|cal rest IH]; intros [|events answers];
    try (unfold itemsOf; cbn; constructor).
  rewrite itemsOf_cons. apply Forall_app. split.
  - apply Forall_forall. intros item Hin. apply in_map_iff in Hin as (event & <- & _).
    now left.
  - eapply Forall_impl; [|apply IH]. intros item Hin. now right.
Qed.

End ItemFacts.

(** X12: an error of [CalendarEvents] never comes with events, and it is the
    error of the range query, of the enumeration, or of the first calendar
    whose event query fails. *)
Theorem CalendarEvents_error_sources (ext : External) (c : client)
  (startUTC endUTC : time.Time) (calls calls' : list Call)
  (items : list calendarItem) (err : error) :
  CalendarEvents c startUTC endUTC calls = (Ret (items, Some err), calls') ->
  items = [] /\
  (entities_NewEventRangeQuery startUTC endUTC = inr err \/
   exists query,
     entities_NewEventRangeQuery startUTC endUTC = inl query /\
     (findCalendars c calls = (Ret (inr err), calls') \/
      exists calendars calls1 before cal after answers calls2,
        findCalendars c calls = (Ret (inl calendars), calls1) /\
        calendars = before ++ cal :: after /\
        AllAnswer c query before calls1 answers calls2 /\
        queryEventsReply (Client_http (client_calendarClient c)) calls2
          (Client_server (client_calendarClient c)) (cal_path cal) query = inr err /\
        calls' = calls2 ++ [QueryEventsCall (Client_server (client_calendarClient c))
                              (cal_path cal) query])).
Proof.
  unfold CalendarEvents.
  destruct (entities_NewEventRangeQuery startUTC endUTC) as [query|e] eqn:Hq.
  - unfold bind at 1.
    destruct (findCalendars c calls) as [[[calendars|e]|msg] calls1] eqn:Hf.
    + intros H. pose proof (CalendarEvents_from_cases c query calendars [] calls1) as Hc.
      rewrite H in Hc.
      destruct Hc as (-> & before & cal & after & answers & calls2 & E & Hall & Hr & ->).
      split; [reflexivity|]. right. exists query. split; [reflexivity|]. right.
      exists calendars, calls1, before, cal, after, answers, calls2. now repeat split.
    + unfold ret. intros [= <- <- <-]. split; [reflexivity|].
      right. exists query. split; [reflexivity|]. now left.
    + discriminate.
  - unfold ret. intros [= <- <- <-]. split; [reflexivity|]. now left.
Qed.

Lemma CalendarEvents_error_sources_witness :
  @nil (@calendarItem sampleExternal) = [] /\
  (@entities_NewEventRangeQuery sampleExternal (time.mkTime 0) (time.mkTime 1) =
     inr (LibraryError "503 Service Unavailable") \/
   exists query,
     @entities_NewEventRangeQuery sampleExternal (time.mkTime 0) (time.mkTime 1) = inl query /\
     (findCalendars (exampleClient false) [] =
        (Ret (inr (LibraryError "503 Service Unavailable")),
         snd (@CalendarEvents sampleExternal (exampleClient false)
                (time.mkTime 0) (time.mkTime 1) [])) \/
      exists calendars calls1 before cal after answers calls2,
        findCalendars (exampleClient false) [] = (Ret (inl calendars), calls1) /\
        calendars = before ++ cal :: after /\
        AllAnswer (exampleClient false) query before calls1 answers calls2 /\
        queryEventsReply (Client_http (client_calendarClient (exampleClient false))) calls2
          (Client_server (client_calendarClient (exampleClient false))) (cal_path cal) query
          = inr (LibraryError "503 Service Unavailable") /\
        snd (@CalendarEvents sampleExternal (exampleClient false)
               (time.mkTime 0) (time.mkTime 1) []) =
        calls2 ++ [QueryEventsCall (Client_server (client_calendarClient (exampleClient false)))
                     (cal_path cal) query])).
Proof.
  apply (CalendarEvents_error_sources sampleExternal (exampleClient false)
           (time.mkTime 0) (time.mkTime 1) []).
  reflexivity.
Defined.

(** X13: every item that [CalendarEvents] returns belongs to one of the
    enumerated calendars, and the items' uids are the uids of the events the
    calendars answered with, in the order received and as often as received:
    nothing is dropped or merged across calendars. *)
Theorem CalendarEvents_items_keep_calendar_and_uid (ext : External) (c : client)
  (startUTC endUTC : time.Time) (calls calls' : list Call) (items : list calendarItem) :
  CalendarEvents c startUTC endUTC calls = (Ret (items, None), calls') ->
  exists query calendars calls1 answers,
    findCalendars c calls = (Ret (inl calendars), calls1) /\
    AllAnswer c query calendars calls1 answers calls' /\
    List.length answers = List.length calendars /\
    map UID items = List.concat (map (map Event_UID) answers) /\
    Forall (fun item => In (calendar item) calendars /\
                        CalendarID item = cal_path (calendar item) /\
                        TimeZone item = cal_timeZone (calendar item)) items.
Proof.
  unfold CalendarEvents.
  destruct (entities_NewEventRangeQuery startUTC endUTC) as [query|err] eqn:Hq;
    [|discriminate].
  unfold bind at 1.
  destruct (findCalendars c calls) as [[[calendars|err]|msg] calls1] eqn:Hf;
    [|discriminate|discriminate].
  intros H. pose proof (CalendarEvents_from_cases c query calendars [] calls1) as Hc.
  rewrite H in Hc. destruct Hc as (answers & Hall & ->).
  exists query, calendars, calls1, answers. cbn [app].
  split; [reflexivity|]. split; [exact Hall|].
  split; [exact (AllAnswer_lengths _ _ _ _ _ _ Hall)|].
  split; [exact (itemsOf_UID _ _ _ _ _ _ Hall)|].
  eapply Forall_impl; [|apply itemsOf_calendar].
  intros item Hin. now repeat split.
Qed.

Lemma CalendarEvents_items_keep_calendar_and_uid_witness :
  exists query calendars calls1 answers,
    findCalendars (exampleClient true) [] = (Ret (inl calendars), calls1) /\
    AllAnswer (exampleClient true) query calendars calls1 answers
      (snd (@CalendarEvents sampleExternal (exampleClient true)
              (time.mkTime 0) (time.mkTime 1) [])) /\
    List.length answers = List.length calendars /\
    map UID (itemsOf [workCalendar; homeCalendar] [workEvents; homeEvents]) =
      List.concat (map (map Event_UID) answers) /\
    Forall (fun item => In (calendar item) calendars /\
                        CalendarID item = cal_path (calendar item) /\
                        TimeZone item = cal_timeZone (calendar item))
      (itemsOf [workCalendar; homeCalendar] [workEvents; homeEvents]).
Proof.
  apply (CalendarEvents_items_keep_calendar_and_uid sampleExternal (exampleClient true)
           (time.mkTime 0) (time.mkTime 1) []).
  reflexivity.
Defined.


(* ------------------------------------------------------------------ *)
(** ** Items: all-day events and response types *)

(** X14: [IsAllDay] is true exactly when the start and the end are both set
    and both lie in the first millisecond from the zero time on; a time
    before the zero time, or a millisecond or more after it, never counts. *)
Theorem IsAllDay_true_iff_first_millisecond (ext : External) (item : calendarItem) :
  IsAllDay item = Ret true <->
  exists ds de,
    Event_DateStart (Event item) = Some ds /\
    Event_DateEnd (Event item) = Some de /\
    0 <= time.sinceZero (DateTime_t ds) < 1000000 /\
    0 <= time.sinceZero (DateTime_t de) < 1000000.
Proof.
  assert (Hms : 0 < time.Millisecond) by reflexivity.
  unfold IsAllDay, Start, End_.
  destruct (Event_DateStart (Event item)) as [ds|]; cbn [NativeTime obind deref].
  2:{ split; [discriminate | intros (s & e & H & _); discriminate]. }
  destruct (time.IsZero (time.Truncate (DateTime_t ds) time.Millisecond)) eqn:Hs.
  - destruct (Event_DateEnd (Event item)) as [de|]; cbn [NativeTime obind deref].
    2:{ split; [discriminate | intros (s & e & _ & H & _); discriminate]. }
    apply IsZero_true_iff, (Truncate_zero_iff _ _ Hms) in Hs.
    split.
    + intros [= He]. apply IsZero_true_iff, (Truncate_zero_iff _ _ Hms) in He.
      exists ds, de. now repeat split.
    + intros (s & e & [= <-] & [= <-] & _ & He).
      apply (Truncate_zero_iff _ _ Hms), IsZero_true_iff in He. now rewrite He.
  - split; [discriminate|].
    intros (s & e & [= <-] & _ & H & _).
    apply (Truncate_zero_iff _ _ Hms), IsZero_true_iff in H. congruence.
Qed.

(** X15: [IsAllDay] reads the end only when the truncated start is the zero
    time.  It is false exactly when the start is set and either the start or
    a set end does not truncate to the zero time, so an event with no end is
    not all-day when its start is not zero; it panics exactly when the start
    is missing, or the start truncates to the zero time and the end is
    missing. *)
Theorem IsAllDay_false_and_panic_cases (ext : External) (item : calendarItem) :
  (IsAllDay item = Ret false <->
   exists ds,
     Event_DateStart (Event item) = Some ds /\
     (time.Truncate (DateTime_t ds) time.Millisecond <> time.zero \/
      exists de,
        Event_DateEnd (Event item) = Some de /\
        time.Truncate (DateTime_t de) time.Millisecond <> time.zero)) /\
  ((exists msg, IsAllDay item = Panic msg) <->
   Event_DateStart (Event item) = None \/
   (exists ds,
      Event_DateStart (Event item) = Some ds /\
      time.Truncate (DateTime_t ds) time.Millisecond = time.zero /\
      Event_DateEnd (Event item) = None)).
Proof.
  unfold IsAllDay, Start, End_.
  destruct (Event_DateStart (Event item)) as [ds|]; cbn [NativeTime obind deref].
  2:{ split.
      - split; [discriminate | intros (s & H & _); discriminate].
      - split; [now left | intros _; eexists; reflexivity]. }
  destruct (time.IsZero (time.Truncate (DateTime_t ds) time.Millisecond)) eqn:Hs.
  - assert (Hz := proj1 (IsZero_true_iff _) Hs).
    destruct (Event_DateEnd (Event item)) as [de|]; cbn [NativeTime obind deref].
    + destruct (time.IsZero (time.Truncate (DateTime_t de) time.Millisecond)) eqn:He.
      * assert (Hze := proj1 (IsZero_true_iff _) He). split.
        -- split; [discriminate|].
           intros (s & [= <-] & [H|(e & [= <-] & H)]); contradiction.
        -- split; [intros [msg H]; discriminate|].
           intros [H|(s & _ & _ & H)]; discriminate.
      * assert (Hne : time.Truncate (DateTime_t de) time.Millisecond <> time.zero).
        { intros E. apply IsZero_true_iff in E. congruence. }
        split.
        -- split; [|reflexivity]. intros _. exists ds. split; [reflexivity|].
           right. exists de. now split.
        -- split; [intros [msg H]; discriminate|].
           intros [H|(s & _ & _ & H)]; discriminate.
    + split.
      * split; [discriminate|].
        intros (s & [= <-] & [H|(e & H & _)]); [contradiction | discriminate].
      * split; [|intros _; eexists; reflexivity].
        intros _. right. exists ds. now repeat split.
  - assert (Hne : time.Truncate (DateTime_t ds) time.Millisecond <> time.zero).
    { intros E. apply IsZero_true_iff in E. congruence. }
    split.
    + split; [|reflexivity]. intros _. exists ds. split; [reflexivity|]. now left.
    + split; [intros [msg H]; discriminate|].
      intros [H|(s & [= <-] & H & _)]; [discriminate | contradiction].
Qed.

Section ResponseTypeFacts.

Context {ext : External}.

Lemma findResponseType_pairs emailAddress (l l' : list attendee) :
  map (fun a => (Address (attendee_EmailAddress a), attendee_ResponseType a)) l =
  map (fun a => (Address (attendee_EmailAddress a), attendee_ResponseType a)) l' ->
  findResponseType emailAddress l = findResponseType emailAddress l'.
Proof.
  revert l'. induction l as [|a l IH]; intros [|a' l'] H; try discriminate; [reflexivity|].
  cbn in H. injection H as Ha Hr Hl. cbn. rewrite Ha, Hr. now rewrite (IH l' Hl).
Qed.

End ResponseTypeFacts.

(** X16: over a list of attendees in two parts, [findResponseType] answers
    from the first part when that holds an attendee with the account's
    address, whatever the second part holds, and from the second part
    otherwise. *)
Theorem findResponseType_app (ext : External) (emailAddress : string)
  (l1 l2 : list attendee) :
  findResponseType emailAddress (l1 ++ l2) =
  if existsb (fun a => String.eqb (Address (attendee_EmailAddress a)) emailAddress) l1
  then findResponseType emailAddress l1
  else findResponseType emailAddress l2.
Proof.
  induction l1 as [|a l1 IH]; [reflexivity|].
  cbn. destruct (String.eqb (Address (attendee_EmailAddress a)) emailAddress);
    [reflexivity | exact IH].
Qed.

(** X17: the response type of a mapped event depends on the raw event only
    through its attendees' addresses and participation statuses, in order:
    the attendees' names, the organizer and every other field play no part. *)
Theorem ResponseType_depends_on_addresses_and_statuses (ext : External)
  (event event' : components_Event) (parentCalendar : calendarListEntry) :
  map (fun a => (mail_Address_ (Attendee_Entry a), Attendee_ParticipationStatus a))
    (Event_Attendees event) =
  map (fun a => (mail_Address_ (Attendee_Entry a), Attendee_ParticipationStatus a))
    (Event_Attendees event') ->
  ResponseType (newCalendarItem event parentCalendar) =
  ResponseType (newCalendarItem event' parentCalendar).
Proof.
  intros H. unfold ResponseType. cbn [responseType newCalendarItem].
  apply findResponseType_pairs. rewrite !resolveAttendees_map, !map_map. cbn.
  revert H. generalize (Event_Attendees event'). 
  induction (Event_Attendees event) as [|a l IH]; intros [|a' l'] H;
    try discriminate; [reflexivity|].
  cbn in H. injection H as Ha Hp Hl. cbn. rewrite Ha, Hp. f_equal. now apply IH.
Qed.

Lemma ResponseType_depends_on_addresses_and_statuses_witness :
  ResponseType
    (@newCalendarItem sampleExternal
       (eventAt 0 None [invitee "Ann" "ann@example.org" Declined]) sampleCalendar) =
  ResponseType
    (@newCalendarItem sampleExternal
       (eventAt 7 (Some {| OrganizerContact_Entry := contact "Bob" "bob@example.org" |})
          [invitee "A. N. Other" "ann@example.org" Declined]) sampleCalendar).
Proof.
  apply (ResponseType_depends_on_addresses_and_statuses sampleExternal).
  reflexivity.
Defined.


(* ------------------------------------------------------------------ *)
(** ** The transport that adds headers *)

(** X18: [RoundTrip] returns exactly when the request and the transport are
    non-nil, the request has a header map and the transport an inner
    transport; otherwise it panics. *)
Theorem RoundTrip_returns_iff (Result : Type)
  (transport : option (@customHeadersRoundTripper Result))
  (request : option http.Request) :
  (exists result, RoundTrip transport request = Ret result) <->
  (exists t r header inner,
     transport = Some t /\ request = Some r /\
     http.Header_ r = Some header /\ innerRoundTripper t = Some inner).
Proof.
  unfold RoundTrip, addHeader. split.
  - intros [result H].
    destruct request as [r|]; [|discriminate].
    destruct transport as [t|].
    2:{ cbn in H. destruct (String.eqb (http.Method r) reportMethod); discriminate. }
    destruct (http.Header_ r) as [header|] eqn:Hh.
    2:{ cbn in H. rewrite Hh in H.
        destruct (String.eqb (http.Method r) reportMethod); cbn in H;
          [|rewrite Hh in H]; discriminate. }
    destruct (innerRoundTripper t) as [inner|] eqn:Hi.
    + now exists t, r, header, inner.
    + cbn in H. rewrite Hh in H.
      destruct (String.eqb (http.Method r) reportMethod); cbn in H;
        [|rewrite Hh in H; cbn in H]; rewrite Hi in H; discriminate.
  - intros (t & r & header & inner & -> & -> & Hh & Hi). cbn. rewrite Hh.
    destruct (String.eqb (http.Method r) reportMethod); cbn;
      [|rewrite Hh; cbn]; rewrite Hi; eexists; reflexivity.
Qed.

(** X19: given a request with a header map and a transport with an inner
    transport, [RoundTrip] hands the inner transport the request with the
    prefer value appended under [Prefer] and, when and only when the method
    is exactly [REPORT], the depth value appended under [Depth]; method, URL,
    body and every other header are as before, values already present are
    kept, and the result is the inner transport's.  The request is changed
    in place, so sending it again appends the values again. *)
Theorem RoundTrip_adds_headers (Result : Type)
  (t : @customHeadersRoundTripper Result) (request : http.Request)
  (header : http.Header) (inner : http.Request -> Result) :
  http.Header_ request = Some header ->
  innerRoundTripper t = Some inner ->
  exists sent sentHeader again againHeader,
    RoundTrip (Some t) (Some request) = Ret (inner sent, sent) /\
    http.Header_ sent = Some sentHeader /\
    (http.Method sent = http.Method request /\ http.URL sent = http.URL request /\
     http.Body sent = http.Body request) /\
    sentHeader prefer = header prefer ++ [transport_prefer t] /\
    sentHeader depth =
      (if String.eqb (http.Method request) reportMethod
       then header depth ++ [transport_depth t]
       else header depth) /\
    (forall key, key <> depth -> key <> prefer -> sentHeader key = header key) /\
    RoundTrip (Some t) (Some sent) = Ret (inner again, again) /\
    http.Header_ again = Some againHeader /\
    againHeader prefer = header prefer ++ [transport_prefer t; transport_prefer t].
Proof.
  intros Hh Hi. unfold RoundTrip, addHeader. cbn [deref obind].
  destruct (String.eqb (http.Method request) reportMethod) eqn:Hm;
    cbn [deref obind]; rewrite Hh; cbn; rewrite ?Hh, ?Hm, Hi; cbn.
  - do 4 eexists. split; [reflexivity|]. cbn. split; [reflexivity|].
    split; [now repeat split|]. split; [reflexivity|]. split; [reflexivity|].
    split.
    + intros key Hd Hp.
      apply String.eqb_neq in Hd, Hp. unfold http.Add. now rewrite Hp, Hd.
    + split; [cbn; rewrite ?Hm; cbn; rewrite ?Hi; reflexivity|].
      split; [reflexivity|]. cbn. now rewrite <- app_assoc.
  - do 4 eexists. split; [reflexivity|]. cbn. split; [reflexivity|].
    split; [now repeat split|]. split; [reflexivity|]. split; [reflexivity|].
    split.
    + intros key Hd Hp.
      apply String.eqb_neq in Hp. unfold http.Add. now rewrite Hp.
    + split; [cbn; rewrite ?Hm; cbn; rewrite ?Hi; reflexivity|].
      split; [reflexivity|]. cbn. now rewrite <- app_assoc.
Qed.

Lemma RoundTrip_adds_headers_witness :
  exists sent sentHeader,
    RoundTrip (Some (transport (fun r => http.Method r))) (Some (sampleRequest "REPORT")) =
      Ret ("REPORT"%string, sent) /\
    http.Header_ sent = Some sentHeader /\
    sentHeader "Prefer"%string = ["respond-async"; "return-minimal"]%string /\
    sentHeader "Depth"%string = ["1"%string].
Proof.
  destruct (RoundTrip_adds_headers string (transport (fun r => http.Method r))
              (sampleRequest "REPORT") _ _ eq_refl eq_refl)
    as (sent & sentHeader & _ & _ & H & Hs & (Hm & _ & _) & Hp & Hd & _).
  exists sent, sentHeader. rewrite H, Hm. repeat split; assumption.
Defined.


(* ------------------------------------------------------------------ *)
(** ** The log package *)

Section LogFacts.

Lemma convertLogParameters_from_pairs (pairs : list (string * log.value)) :
  forall fields,
    log.convertLogParameters_from (log.keyValues pairs) fields =
    Ret (fields ++ map (fun '(key, v) => log.convertLogParameter key v) pairs).
Proof.
  induction pairs as [|[key v] pairs IH]; intros fields; cbn.
  - now rewrite app_nil_r.
  - unfold log.keyValues in IH. rewrite IH, <- app_assoc. reflexivity.
Qed.

Lemma convertLogParameters_from_Ret (args : list log.value) :
  forall n fields out,
    (List.length args <= n)%nat ->
    log.convertLogParameters_from args fields = Ret out ->
    exists pairs,
      args = log.keyValues pairs /\
      out = fields ++ map (fun '(key, v) => log.convertLogParameter key v) pairs.
Proof.
  intros n. revert args.
  induction n as [|n IH]; intros args fields out Hn H.
  - destruct args; [|cbn in Hn; lia]. cbn in H. injection H as <-.
    exists []. now rewrite app_nil_r.
  - destruct args as [|k [|v rest]].
    + cbn in H. injection H as <-. exists []. now rewrite app_nil_r.
    + destruct k; discriminate.
    + destruct k; try discriminate. cbn in H.
      apply IH in H as (pairs & -> & ->); [|cbn in Hn; lia].
      exists ((s, v) :: pairs). split; [reflexivity|].
      cbn. now rewrite <- app_assoc.
Qed.

End LogFacts.

Lemma substring_past_prefix (stamp message : string) :
  String.substring (String.length stamp) (String.length message)
    (String.append stamp message) = message.
Proof.
  induction stamp as [|c stamp IH]; cbn.
  - induction message as [|c message IH]; cbn; [reflexivity | now rewrite IH].
  - exact IH.
Qed.

Lemma length_substring_all (p : string) :
  String.length (String.substring 0 (String.length p) p) = String.length p.
Proof. induction p as [|c p IH]; cbn; [reflexivity | now rewrite IH]. Qed.

Lemma length_substring_rest (p : string) :
  forall n, (n <= String.length p)%nat ->
    String.length (String.substring n (String.length p - n) p) = (String.length p - n)%nat.
Proof.
  induction p as [|c p IH]; intros [|n] H; cbn in *; try lia.
  - now rewrite length_substring_all.
  - apply IH. lia.
Qed.

Lemma length_of_append (s1 s2 : string) :
  String.length (String.append s1 s2) = (String.length s1 + String.length s2)%nat.
Proof. induction s1 as [|c s1 IH]; cbn; [reflexivity | now rewrite IH]. Qed.

Lemma keyValues_length (pairs : list (string * log.value)) :
  List.length (log.keyValues pairs) = (2 * List.length pairs)%nat.
Proof.
  induction pairs as [|[key v] pairs IH]; [reflexivity|].
  unfold log.keyValues in *. cbn. rewrite IH. lia.
Qed.

Lemma convertLogParameters_pairs_iff (args : list log.value) (fields : list log.Field) :
  log.convertLogParameters args = Ret fields <->
  exists pairs,
    args = log.keyValues pairs /\
    fields = map (fun '(key, v) => log.convertLogParameter key v) pairs.
Proof.
  unfold log.convertLogParameters. split.
  - intros H.
    apply (convertLogParameters_from_Ret args (List.length args)) in H as (pairs & -> & ->);
      [|lia].
    now exists pairs.
  - intros (pairs & -> & ->). now rewrite convertLogParameters_from_pairs.
Qed.

(** X20: [convertLogParameters] returns fields exactly when its arguments are
    key/value pairs with string keys; there is then one field per pair, in
    order, each under its pair's key. *)
Theorem convertLogParameters_returns_iff (args : list log.value) (fields : list log.Field) :
  log.convertLogParameters args = Ret fields <->
  exists pairs,
    args = log.keyValues pairs /\
    fields = map (fun '(key, v) => log.convertLogParameter key v) pairs /\
    List.length fields = List.length pairs /\
    map log.fieldKey fields = map fst pairs.
Proof.
  assert (Hkey : forall pairs : list (string * log.value),
             map log.fieldKey (map (fun '(key, v) => log.convertLogParameter key v) pairs)
             = map fst pairs).
  { induction pairs as [|[key v] pairs IH]; [reflexivity|]. cbn. rewrite IH. f_equal.
    destruct v as [| | | | | | | |m [s|]|i [s|]]; reflexivity. }
  rewrite convertLogParameters_pairs_iff. split.
  - intros (pairs & -> & ->). exists pairs. repeat split; [apply length_map | apply Hkey].
  - intros (pairs & -> & -> & _). now exists pairs.
Qed.

(** X21: an odd number of arguments, a key without its value, makes
    [convertLogParameters] panic, and so does a key that is not a string. *)
Theorem convertLogParameters_panics_on_odd_or_bad_key (args : list log.value) :
  (Nat.odd (List.length args) = true ->
   exists msg, log.convertLogParameters args = Panic msg) /\
  (forall pairs key v rest,
     args = log.keyValues pairs ++ key :: v :: rest ->
     (forall s, key <> log.stringValue s) ->
     exists msg, log.convertLogParameters args = Panic msg).
Proof.
  split.
  - intros Hodd. destruct (log.convertLogParameters args) as [fields|msg] eqn:H.
    + apply (proj1 (convertLogParameters_pairs_iff args fields)) in H
        as (pairs & -> & _).
      rewrite keyValues_length, Nat.odd_mul in Hodd. discriminate.
    + now exists msg.
  - intros pairs key v rest -> Hkey. unfold log.convertLogParameters.
    generalize (@nil log.Field).
    induction pairs as [|[k w] pairs IH]; intros fields.
    + cbn. destruct key; try (eexists; reflexivity). now destruct (Hkey s).
    + cbn. apply IH.
Qed.

Lemma convertLogParameters_panics_on_odd_or_bad_key_witness :
  (exists msg,
     log.convertLogParameters [log.stringValue "userID"; log.stringValue "u1";
                               log.stringValue "email"] = Panic msg) /\
  (exists msg,
     log.convertLogParameters [log.intValue 7; log.stringValue "u1"] = Panic msg).
Proof.
  split.
  - apply (proj1 (convertLogParameters_panics_on_odd_or_bad_key _)). reflexivity.
  - apply (proj2 (convertLogParameters_panics_on_odd_or_bad_key _)
             [] (log.intValue 7) (log.stringValue "u1") []).
    + reflexivity.
    + discriminate.
Defined.

(** X22: a [time.Duration] and a [time.Time] are logged through [zap.Stringer]:
    both have a [String] method and the [fmt.Stringer] case stands before
    theirs, so no argument ever becomes a [zap.Duration] or a [zap.Time]
    field.  An error without a [String] method is logged as its message. *)
Theorem convertLogParameter_stringer_first (key : string) :
  (forall d, log.convertLogParameter key (log.durationValue d) =
             log.zap_Stringer key (log.durationValue d)) /\
  (forall t, log.convertLogParameter key (log.timeValue t) =
             log.zap_Stringer key (log.timeValue t)) /\
  (forall v key' d, log.convertLogParameter key v <> log.zap_Duration key' d) /\
  (forall v key' t, log.convertLogParameter key v <> log.zap_Time key' t) /\
  (forall message, log.convertLogParameter key (log.errorValue message None) =
                   log.zap_String key message) /\
  (forall args fields,
     log.convertLogParameters args = Ret fields ->
     Forall (fun f => match f with
                      | log.zap_Duration _ _ | log.zap_Time _ _ => False
                      | _ => True
                      end) fields).
Proof.
  assert (Hno : forall k v, match log.convertLogParameter k v with
                            | log.zap_Duration _ _ | log.zap_Time _ _ => False
                            | _ => True
                            end).
  { intros k v. destruct v as [| | | | | | | |m [s|]|i [s|]]; exact I. }
  repeat split; try reflexivity.
  - intros v key' d E. specialize (Hno key v). now rewrite E in Hno.
  - intros v key' t E. specialize (Hno key v). now rewrite E in Hno.
  - intros args fields H.
    apply (proj1 (convertLogParameters_pairs_iff args fields)) in H as (pairs & _ & ->).
    apply Forall_forall. intros f Hin.
    apply in_map_iff in Hin as ([k v] & <- & _). apply Hno.
Qed.

(** X23: the standard logger's adapter logs its input without the first
    twenty bytes, the timestamp, and reports the whole input as written and
    no error; an input shorter than the timestamp makes it panic. *)
Theorem Write_skips_timestamp (p : string) :
  log.prefixLength = 20%nat /\
  ((String.length p < 20)%nat -> exists msg, log.Write p = Panic msg) /\
  ((20 <= String.length p)%nat ->
   exists message, log.Write p = Ret (message, (String.length p, None)) /\
                   String.length message = (String.length p - 20)%nat) /\
  (forall stamp message,
     String.length stamp = 20%nat -> p = String.append stamp message ->
     log.Write p = Ret (message, (String.length p, None))).
Proof.
  split; [reflexivity|]. unfold log.Write.
  change log.prefixLength with 20%nat. repeat split.
  - intros H. apply Nat.ltb_lt in H. rewrite H. eexists. reflexivity.
  - intros H. destruct (String.length p <? 20)%nat eqn:E; [apply Nat.ltb_lt in E; lia|].
    eexists. split; [reflexivity|]. now apply length_substring_rest.
  - intros stamp message Hs ->. rewrite length_of_append, Hs.
    destruct (20 + String.length message <? 20)%nat eqn:E; [apply Nat.ltb_lt in E; lia|].
    replace (20 + String.length message - 20)%nat with (String.length message) by lia.
    assert (Hsub : String.substring 20 (String.length message)
                     (String.append stamp message) = message)
      by (rewrite <- Hs; apply substring_past_prefix).
    now rewrite Hsub.
Qed.


(* ------------------------------------------------------------------ *)
(** ** The message queue *)

Section QueueFacts.

Lemma strconv_Itoa_inj (i j : nat) : strconv_Itoa i = strconv_Itoa j -> i = j.
Proof.
  unfold strconv_Itoa. intros H.
  apply Unsigned.to_uint_inj.
  assert (E : NilEmpty.uint_of_string (NilEmpty.string_of_uint (Nat.to_uint i)) =
              NilEmpty.uint_of_string (NilEmpty.string_of_uint (Nat.to_uint j)))
    by now rewrite H.
  rewrite !NilEmpty.usu in E. now injection E.
Qed.

Lemma entriesFrom_ids (handles : list string) :
  forall i, map sqs.Id (sqs.entriesFrom i handles) =
            map (fun k => Some (strconv_Itoa k)) (seq i (List.length handles)).
Proof.
  induction handles as [|h rest IH]; intros i; cbn; [reflexivity | now rewrite IH].
Qed.

Lemma entriesFrom_handles (handles : list string) :
  forall i, map sqs.ReceiptHandle (sqs.entriesFrom i handles) = map Some handles.
Proof.
  induction handles as [|h rest IH]; intros i; cbn; [reflexivity | now rewrite IH].
Qed.

Lemma entriesFrom_nth (handles : list string) :
  forall k i handle,
    nth_error handles i = Some handle ->
    nth_error (sqs.entriesFrom k handles) i =
      Some {| sqs.Id := Some (strconv_Itoa (k + i)); sqs.ReceiptHandle := Some handle |}.
Proof.
  induction handles as [|h rest IH]; intros k [|i] handle Hn; cbn in *; try discriminate.
  - injection Hn as <-. now rewrite Nat.add_0_r.
  - rewrite (IH (S k) i handle Hn). do 4 f_equal. lia.
Qed.

Lemma adaptMessages_length (messages : list (option sqs.sdk_Message)) :
  forall output,
    sqs.adaptMessages messages = Ret output ->
    List.length output = List.length messages.
Proof.
  induction messages as [|[[[b|] [h|]]|] rest IH]; intros output; cbn; try discriminate.
  - now intros [= <-].
  - destruct (sqs.adaptMessages rest) as [out|msg]; cbn; [|discriminate].
    intros [= <-]. cbn. now rewrite (IH out eq_refl).
Qed.

End QueueFacts.

(** X24: [adaptMessages] returns exactly when every SDK message is non-nil
    and has a body and a receipt handle; the result then has one message
    per input, in order, with that body and handle.  A nil message, a
    message without a body or one without a handle makes it panic. *)
Theorem adaptMessages_returns_iff (messages : list (option sqs.sdk_Message))
  (output : list sqs.Message) :
  (sqs.adaptMessages messages = Ret output <->
   messages =
     map (fun m => Some {| sqs.sdk_Body := Some (sqs.Body m);
                           sqs.sdk_ReceiptHandle := Some (sqs.Handle m) |}) output) /\
  ((exists msg, sqs.adaptMessages messages = Panic msg) <->
   exists message,
     In message messages /\
     match message with
     | None => True
     | Some m => sqs.sdk_Body m = None \/ sqs.sdk_ReceiptHandle m = None
     end).
Proof.
  split.
  - revert output. induction messages as [|message rest IH]; intros output.
    + cbn. split.
      * now intros [= <-].
      * intros H. destruct output; [reflexivity | discriminate].
    + cbn [sqs.adaptMessages].
      destruct message as [[body handle]|]; cbn [deref obind sqs.sdk_Body sqs.sdk_ReceiptHandle].
      2:{ split; [discriminate | intros H; destruct output; discriminate]. }
      destruct body as [b|]; cbn [deref obind].
      2:{ split; [discriminate | intros H; destruct output; discriminate]. }
      destruct handle as [h|]; cbn [deref obind].
      2:{ split; [discriminate | intros H; destruct output; discriminate]. }
      destruct (sqs.adaptMessages rest) as [out|msg] eqn:Hrest; cbn [obind].
      * split.
        -- intros [= <-]. cbn. now rewrite (proj1 (IH out) eq_refl) at 1.
        -- intros H. destruct output as [|[b' h'] out']; [discriminate|].
           cbn in H. injection H as <- <- H.
           assert (E : Ret out = Ret out') by (apply IH; exact H).
           now injection E as <-.
      * split; [discriminate|].
        intros H. destruct output as [|[b' h'] out']; [discriminate|].
        cbn in H. injection H as _ _ H.
        assert (E : @Panic (list sqs.Message) msg = Ret out') by (apply IH; exact H).
        discriminate E.
  - induction messages as [|message rest IH].
    + cbn. split; [intros [msg H]; discriminate | intros (m & [] & _)].
    + cbn [sqs.adaptMessages].
      destruct message as [[body handle]|]; cbn [deref obind sqs.sdk_Body sqs.sdk_ReceiptHandle].
      2:{ split; [|intros _; eexists; reflexivity].
          intros _. exists None. split; [now left | exact I]. }
      destruct body as [b|]; cbn [deref obind].
      2:{ split; [|intros _; eexists; reflexivity].
          intros _. eexists (Some _). split; [now left|]. now left. }
      destruct handle as [h|]; cbn [deref obind].
      2:{ split; [|intros _; eexists; reflexivity].
          intros _. eexists (Some _). split; [now left|]. now right. }
      destruct (sqs.adaptMessages rest) as [out|msg]; cbn [obind].
      * split; [intros [m H]; discriminate|].
        intros (m & [<-|Hin] & Hm).
        -- destruct Hm; discriminate.
        -- destruct (proj2 IH) as [m' H']; [now exists m | discriminate].
      * split; [|intros _; eexists; reflexivity].
        intros _. destruct (proj1 IH) as (m & Hin & Hm); [eexists; reflexivity|].
        exists m. split; [now right | exact Hm].
Qed.

(** X25: [Receive] passes the queue's input to the SDK.  When the SDK hands
    back a response whose messages are complete and reports no error, or an
    AWS error other than the missing queue, [Receive] returns the adapted
    messages, a flag that is true exactly when there is at least one, and
    the SDK's error unchanged beside them.  The missing queue's error, an
    error that is not an AWS error and a nil response make it panic. *)
Theorem Receive_cases (q : sqs.queue) :
  (forall response err messages,
     sqs.receiveMessage q (sqs.input q) = (Some response, err) ->
     (forall code message, err = Some (sqs.awsError code message) ->
                           code <> sqs.nonExistentQueueErrorCode) ->
     (forall e, err <> Some (sqs.otherError e)) ->
     sqs.adaptMessages (sqs.Messages response) = Ret messages ->
     sqs.Receive q =
       Ret (messages, negb (Nat.eqb (List.length messages) 0), err)) /\
  (forall response message,
     sqs.receiveMessage q (sqs.input q) =
       (response, Some (sqs.awsError sqs.nonExistentQueueErrorCode message)) ->
     exists msg, sqs.Receive q = Panic msg) /\
  (forall response e,
     sqs.receiveMessage q (sqs.input q) = (response, Some (sqs.otherError e)) ->
     exists msg, sqs.Receive q = Panic msg) /\
  (forall err,
     sqs.receiveMessage q (sqs.input q) = (None, err) ->
     exists msg, sqs.Receive q = Panic msg).
Proof.
  unfold sqs.Receive. repeat split.
  - intros response err messages -> Hcode Hother Hm.
    assert (Hflag : (0 <? List.length (sqs.Messages response))%nat =
                    negb (Nat.eqb (List.length messages) 0)).
    { rewrite (adaptMessages_length _ _ Hm).
      now destruct (List.length (sqs.Messages response)). }
    destruct err as [[code message|e]|]; cbn [deref obind].
    + destruct (String.eqb_spec code sqs.nonExistentQueueErrorCode) as [E|_].
      * now destruct (Hcode code message eq_refl).
      * now rewrite Hm, Hflag.
    + now destruct (Hother e).
    + now rewrite Hm, Hflag.
  - intros response message ->. rewrite String.eqb_refl. eexists. reflexivity.
  - intros response e ->. eexists. reflexivity.
  - intros err ->. destruct err as [[code message|e]|]; cbn [deref obind].
    + destruct (String.eqb code sqs.nonExistentQueueErrorCode); eexists; reflexivity.
    + eexists. reflexivity.
    + eexists. reflexivity.
Qed.

Lemma Receive_cases_witness :
  sqs.Receive sampleQueue =
  Ret ([ {| sqs.Body := "first"; sqs.Handle := "h1" |};
         {| sqs.Body := "second"; sqs.Handle := "h2" |} ],
       true, Some (sqs.awsError "RequestThrottled" "slow down")).
Proof.
  apply (proj1 (Receive_cases sampleQueue) _ _
           [ {| sqs.Body := "first"; sqs.Handle := "h1" |};
             {| sqs.Body := "second"; sqs.Handle := "h2" |} ] eq_refl).
  - intros code message [= <- _]. discriminate.
  - discriminate.
  - reflexivity.
Defined.

(** X26: on a queue that has its receive input, [DeleteMessages] makes one
    batch call for all the handles, addressed to the input's queue URL: the
    i-th entry carries the i-th handle under the id that is the decimal
    numeral of i, counted from zero, so the ids of a batch are pairwise
    distinct.  What it returns is read off the SDK's answer to that batch:
    an error of the SDK unchanged, without the output being read; with no
    error the partial success error [WF11201] when the output lists a
    failed entry, no error when it lists none, and a panic when the output
    is nil. *)
Theorem DeleteMessages_batch (q : sqs.queue) (handles : list string)
  (receiveInput : sqs.ReceiveMessageInput) :
  sqs.input q = Some receiveInput ->
  exists sent,
    sqs.batch_QueueUrl sent = sqs.QueueUrl receiveInput /\
    map sqs.ReceiptHandle (sqs.Entries sent) = map Some handles /\
    map sqs.Id (sqs.Entries sent) =
      map (fun i => Some (strconv_Itoa i)) (seq 0 (List.length handles)) /\
    NoDup (map sqs.Id (sqs.Entries sent)) /\
    (forall i handle, nth_error handles i = Some handle ->
       nth_error (sqs.Entries sent) i =
         Some {| sqs.Id := Some (strconv_Itoa i); sqs.ReceiptHandle := Some handle |}) /\
    sqs.DeleteMessages q handles =
      match sqs.DeleteMessageBatch q sent with
      | (_, Some e) => Ret (Some e)
      | (Some out, None) =>
          Ret (match sqs.Failed out with
               | [] => None
               | _ :: _ => Some (sqs.otherError (LibraryError "WF11201: partial success"))
               end)
      | (None, None) => Panic nilDereference
      end.
Proof.
  intros Hin.
  exists {| sqs.batch_QueueUrl := sqs.QueueUrl receiveInput;
            sqs.Entries := sqs.entriesFrom 0 handles |}.
  cbn [sqs.batch_QueueUrl sqs.Entries].
  split; [reflexivity|]. split; [apply entriesFrom_handles|].
  split; [apply entriesFrom_ids|]. split; [|split].
  - rewrite entriesFrom_ids. apply Injective_map_NoDup; [|apply seq_NoDup].
    intros i j [= H]. now apply strconv_Itoa_inj.
  - intros i handle Hn. exact (entriesFrom_nth handles 0%nat i handle Hn).
  - unfold sqs.DeleteMessages. rewrite Hin. cbn [deref obind].
    destruct (sqs.DeleteMessageBatch q _) as [[out|] [e|]]; cbn [deref obind];
      try reflexivity.
    now destruct (sqs.Failed out).
Qed.

Lemma DeleteMessages_batch_witness :
  sqs.DeleteMessages sampleQueue ["h1"; "h2"; "h3"]%string =
    Ret (Some (sqs.otherError (LibraryError "WF11201: partial success"))) /\
  sqs.DeleteMessages sampleQueue ["h1"; "h3"]%string = Ret None.
Proof.
  split.
  - destruct (DeleteMessages_batch sampleQueue ["h1"; "h2"; "h3"]%string _ eq_refl)
      as (sent & _ & Hh & Hi & _ & _ & ->).
    destruct sent as [u entries]. cbn [sqs.Entries] in Hh, Hi.
    cbn [sampleQueue sqs.NewMessageQueue sqs.DeleteMessageBatch sqs.Entries].
    destruct entries as [|[i1 h1] [|[i2 h2] [|[i3 h3] [|? ?]]]]; try discriminate.
    cbn in Hh, Hi. injection Hh as -> -> ->. injection Hi as -> -> ->.
    reflexivity.
  - destruct (DeleteMessages_batch sampleQueue ["h1"; "h3"]%string _ eq_refl)
      as (sent & _ & Hh & Hi & _ & _ & ->).
    destruct sent as [u entries]. cbn [sqs.Entries] in Hh, Hi.
    cbn [sampleQueue sqs.NewMessageQueue sqs.DeleteMessageBatch sqs.Entries].
    destruct entries as [|[i1 h1] [|[i2 h2] [|? ?]]]; try discriminate.
    cbn in Hh, Hi. injection Hh as -> ->. injection Hi as -> ->.
    reflexivity.
Defined.


(* ------------------------------------------------------------------ *)
(** ** The sync worker *)

Section SyncFacts.

Context {Client Event : Type}.


End SyncFacts.

(** X27: whatever account it is given, [createCalendarClient] asks its
    collaborators in one of five ways: nothing at all (malformed Exchange
    login info); the secret alone, when the lookup fails, and the lookup's
    error is returned; the secret and then an EWS client; a Google client
    from the refresh token, with no secret looked up; or the secret and then
    a CalDAV client for the account's host.  The secret asked for is always
    the account's password entry, and it is asked for at most once.  What the
    constructor of the CalDAV client comes to is handed on as it is, a panic
    included; a nil account makes [createCalendarClient] panic with nothing
    asked. *)
Theorem createCalendarClient_asks (Client Event : Type)
  (w : @main.World Client Event) (account : option main.account) (ops : list main.Op) :
  let result := fst (main.createCalendarClient w account ops) in
  exists added,
    snd (main.createCalendarClient w account ops) = ops ++ added /\
    match account with
    | None => added = [] /\ result = Panic nilDereference
    | Some a =>
        let lookup := main.RetrieveUserSecret (main.Password a) in
        (added = [] /\ main.LoginType a = "Exchange"%string /\
         exists info, result = Ret (inr (main.malformedLoginInfo info))) \/
        (added = [lookup] /\
         exists err, main.secrets_RetrieveUserSecret w ops (main.Password a) = inr err /\
                     result = Ret (inr (main.collaboratorError err))) \/
        (exists url password,
           added = [lookup; main.NewEWSClient url (main.Email a) password] /\
           main.secrets_RetrieveUserSecret w ops (main.Password a) = inl password /\
           result = Ret (inl (main.ews_NewClient w url (main.Email a) password))) \/
        (added = [main.NewGoogleClient (main.RefreshToken a)] /\
         main.Host a = "imap.gmail.com"%string /\
         result =
           Ret (main.liftError (main.google_NewCalendarClient w ops (main.RefreshToken a)))) \/
        (exists password,
           added = [lookup; main.NewCalDAVClient (main.Host a) (main.Email a) password] /\
           main.secrets_RetrieveUserSecret w ops (main.Password a) = inl password /\
           main.Host a <> "imap.gmail.com"%string /\
           main.LoginType a <> "Exchange"%string /\
           result =
             match main.caldav_NewClient w (ops ++ [lookup])
                     (main.Host a) (main.Email a) password with
             | Ret made => Ret (main.liftError made)
             | Panic msg => Panic msg
             end)
    end.
Proof.
  cbv zeta.
  unfold main.createCalendarClient, main.withSecret, main.newEWS, main.abind,
    main.alift, main.ask, main.askOutcome, main.aret.
  destruct account as [a|]; cbn [deref].
  2:{ exists []. rewrite app_nil_r. now repeat split. }
  destruct (String.eqb_spec (main.LoginType a) "Exchange") as [Hl|Hl].
  - destruct (List.length (strings_SplitOnSpace (main.LoginInfo a)) <? 3)%nat.
    + exists []. rewrite app_nil_r. split; [reflexivity|]. left.
      repeat split; [exact Hl|]. eexists. reflexivity.
    + destruct (main.secrets_RetrieveUserSecret w ops (main.Password a)) as [pw|err] eqn:Hs;
        cbn [fst snd].
      * eexists [_; _]. rewrite <- app_assoc. split; [reflexivity|].
        right. right. left. eexists. exists pw. now repeat split.
      * eexists [_]. split; [reflexivity|]. right. left.
        split; [reflexivity|]. now exists err.
  - destruct (strings_HasSuffix (main.Host a) "outlook.com"
              || strings_HasSuffix (main.Host a) "office365.com").
    + destruct (main.secrets_RetrieveUserSecret w ops (main.Password a)) as [pw|err] eqn:Hs;
        cbn [fst snd].
      * eexists [_; _]. rewrite <- app_assoc. split; [reflexivity|].
        right. right. left. eexists. exists pw. now repeat split.
      * eexists [_]. split; [reflexivity|]. right. left.
        split; [reflexivity|]. now exists err.
    + destruct (String.eqb_spec (main.Host a) "imap.gmail.com") as [Hh|Hh].
      * eexists [_]. split; [reflexivity|]. right. right. right. left.
        now repeat split.
      * destruct (main.secrets_RetrieveUserSecret w ops (main.Password a)) as [pw|err] eqn:Hs;
          cbn [fst snd].
        -- exists [main.RetrieveUserSecret (main.Password a);
                   main.NewCalDAVClient (main.Host a) (main.Email a) pw].
           destruct (main.caldav_NewClient w _ (main.Host a) (main.Email a) pw)
             as [made|msg] eqn:Hn; cbn [fst snd]; rewrite <- app_assoc;
             (split; [reflexivity|]);
             right; right; right; right; exists pw; rewrite Hn; now repeat split.
        -- eexists [_]. split; [reflexivity|]. right. left.
           split; [reflexivity|]. now exists err.
Qed.

(** With the client of [caldav.go] behind it, on a server whose answer
    names no principal, the constructor's panic is [createCalendarClient]'s;
    the secret was looked up and the constructor asked. *)
Lemma createCalendarClient_asks_witness :
  exists password,
    main.createCalendarClient (caldavWorld serverWithoutPrincipal)
      (Some (imapAccount "cal.example.org")) [] =
    (Panic nilDereference,
     [main.RetrieveUserSecret "pw-key";
      main.NewCalDAVClient "cal.example.org" "ann@example.org" password]).
Proof.
  pose proof (createCalendarClient_asks _ _ (caldavWorld serverWithoutPrincipal)
                (Some (imapAccount "cal.example.org")) []) as H.
  cbv zeta in H. destruct H as (added & Hs & H).
  assert (E : fst (main.createCalendarClient (caldavWorld serverWithoutPrincipal)
                     (Some (imapAccount "cal.example.org")) []) = Panic nilDereference)
    by reflexivity.
  rewrite E in H.
  destruct H as [(_ & _ & info & H)|[(_ & err & _ & H)|[(url & password & _ & _ & H)|
                 [(_ & H & _)|(password & Ha & _)]]]];
    try discriminate H.
  exists password.
  rewrite (surjective_pairing (main.createCalendarClient _ _ _)), E, Hs, Ha.
  reflexivity.
Defined.

(** X28: an account whose login type is [Exchange] is served by EWS whatever
    its host is.  When its login info has fewer than three space-separated
    fields the malformed-login-info error is returned and nothing is asked of
    any collaborator, the secret store included; otherwise the third field is
    the EWS endpoint. *)
Theorem createCalendarClient_exchange (Client Event : Type)
  (w : @main.World Client Event) (a : main.account) (ops : list main.Op) :
  main.LoginType a = "Exchange"%string ->
  let loginInfo := strings_SplitOnSpace (main.LoginInfo a) in
  ((List.length loginInfo < 3)%nat ->
   main.createCalendarClient w (Some a) ops =
     (Ret (inr (main.malformedLoginInfo loginInfo)), ops)) /\
  (forall password,
     (3 <= List.length loginInfo)%nat ->
     main.secrets_RetrieveUserSecret w ops (main.Password a) = inl password ->
     main.createCalendarClient w (Some a) ops =
       (Ret (inl (main.ews_NewClient w (nth 2 loginInfo EmptyString) (main.Email a)
                    password)),
        ops ++ [main.RetrieveUserSecret (main.Password a);
                main.NewEWSClient (nth 2 loginInfo EmptyString) (main.Email a) password])).
Proof.
  intros Hl. cbv zeta.
  split; [intros H | intros password H Hs];
    unfold main.createCalendarClient, main.abind at 1, main.alift;
    cbn [deref]; rewrite Hl, String.eqb_refl.
  - apply Nat.ltb_lt in H. now rewrite H.
  - destruct (List.length (strings_SplitOnSpace (main.LoginInfo a)) <? 3)%nat eqn:E;
      [apply Nat.ltb_lt in E; lia|].
    unfold main.withSecret, main.newEWS, main.abind, main.ask, main.aret.
    cbv beta. rewrite Hs. now rewrite <- app_assoc.
Qed.

Lemma createCalendarClient_exchange_witness :
  main.createCalendarClient sampleWorld
    (Some (exchangeAccount "EXAMPLE ann" "imap.gmail.com")) [] =
    (Ret (inr (main.malformedLoginInfo ["EXAMPLE"; "ann"]%string)), []) /\
  fst (main.createCalendarClient sampleWorld
         (Some (exchangeAccount "EXAMPLE ann https://mail.example.org/EWS/Exchange.asmx"
                  "imap.gmail.com")) []) =
    Ret (inl "ews:https://mail.example.org/EWS/Exchange.asmx"%string).
Proof.
  split.
  - apply (proj1 (createCalendarClient_exchange string nat sampleWorld
                    (exchangeAccount "EXAMPLE ann" "imap.gmail.com") [] eq_refl)).
    cbn. lia.
  - rewrite (proj2 (createCalendarClient_exchange string nat sampleWorld
                      (exchangeAccount "EXAMPLE ann https://mail.example.org/EWS/Exchange.asmx"
                         "imap.gmail.com") [] eq_refl) "secret-of-pw-key"%string);
      [reflexivity | cbn; lia | reflexivity].
Defined.

(** X29: an account that is not of type [Exchange] and whose host ends in
    [outlook.com] or [office365.com], whatever stands before that ending, is
    served by EWS at the fixed Office 365 endpoint with the account's email
    and the secret looked up; the account's own host is not used.  *)
Theorem createCalendarClient_office365 (Client Event : Type)
  (w : @main.World Client Event) (a : main.account) (ops : list main.Op)
  (password : string) :
  main.LoginType a <> "Exchange"%string ->
  strings_HasSuffix (main.Host a) "outlook.com"
    || strings_HasSuffix (main.Host a) "office365.com" = true ->
  main.secrets_RetrieveUserSecret w ops (main.Password a) = inl password ->
  main.createCalendarClient w (Some a) ops =
    (Ret (inl (main.ews_NewClient w "https://outlook.office365.com/EWS/Exchange.asmx"
                 (main.Email a) password)),
     ops ++ [main.RetrieveUserSecret (main.Password a);
             main.NewEWSClient "https://outlook.office365.com/EWS/Exchange.asmx"
               (main.Email a) password]).
Proof.
  intros Hl Hh Hs. unfold main.createCalendarClient, main.abind at 1, main.alift.
  cbn [deref].
  apply String.eqb_neq in Hl. rewrite Hl, Hh.
  unfold main.withSecret, main.newEWS, main.abind, main.ask, main.aret.
  cbv beta. rewrite Hs. now rewrite <- app_assoc.
Qed.

Lemma createCalendarClient_office365_witness :
  fst (main.createCalendarClient sampleWorld (Some (imapAccount "mail.notoutlook.com")) []) =
    Ret (inl "ews:https://outlook.office365.com/EWS/Exchange.asmx"%string).
Proof.
  rewrite (createCalendarClient_office365 string nat sampleWorld
             (imapAccount "mail.notoutlook.com") [] "secret-of-pw-key"%string);
    [reflexivity | discriminate | reflexivity | reflexivity].
Defined.


